(** * The retrieval pipeline of the Netflix chatbot (app.py)

    A shallow embedding of [extract_filters], [filter_data], [build_prompt],
    [query_mistral] and [chat], and the properties of them that the
    specification states.

    Conventions of the embedding.
    - A Python [str] is a list of 8-bit characters read as ASCII; the case
      mappings and the character classes (white space, digits, word
      characters) are those of Python on the code points 0-127.  Python reads
      other code points by the Unicode tables, which are outside the model:
      a statement that depends on a character class says so with the
      hypothesis [ascii_only] on its text.
    - The catalog [df] is the list of its rows, in order.  The text columns hold
      strings; [release_year] holds an integer or a string cell.
    - Similarity scores are rationals: the order of finite floats, without
      NaN.  [numpy.argsort] is any function that sorts the indices by score;
      the order it gives equal scores is not fixed by NumPy.
    - spaCy, the sentence encoder, scikit-learn's [cosine_similarity],
      [numpy.argsort], the [ollama] process and the part of Python's
      regular-expression engine that [Regex] does not interpret are
      collaborators: they are Section variables, and what is assumed of them
      is a Section hypothesis of the theorem that needs it.
    - A computation that calls the encoder, the similarity or the generator
      returns the log of those calls with its result, so that a statement
      can say which calls were made. *)

From Stdlib Require Import List Ascii String Bool Arith ZArith QArith Lia.
From Stdlib Require Import Sorted Permutation DecimalString.
From Stdlib Require DecimalPos DecimalZ.
Import ListNotations.

Set Implicit Arguments.
Set Warnings "-notation-for-abbreviation".
Close Scope Q_scope.

(* ================================================================== *)
(** * Python strings *)
(* ================================================================== *)

Module Str.

Definition str := list ascii.

(** A string literal as a [str]. *)
Definition py (s : string) : str := list_ascii_of_string s.

Definition code (c : ascii) : nat := nat_of_ascii c.

Definition is_upper (c : ascii) : bool := (65 <=? code c) && (code c <=? 90).
Definition is_lower (c : ascii) : bool := (97 <=? code c) && (code c <=? 122).
Definition is_digit (c : ascii) : bool := (48 <=? code c) && (code c <=? 57).
Definition is_cased (c : ascii) : bool := is_upper c || is_lower c.

(** [\w] of the [re] module on ASCII: a letter, a digit or the underscore.
    On a Python [str] the module also counts the letters and digits of
    Unicode, which are not ASCII. *)
Definition is_word (c : ascii) : bool :=
  is_upper c || is_lower c || is_digit c || (code c =? 95).

(** [str.isspace] on ASCII: tab to carriage return, the four separators
    28-31, and the space.  Python also counts Unicode white space (U+0085,
    U+00A0, U+2028, ...), which is not ASCII. *)
Definition is_space (c : ascii) : bool :=
  ((9 <=? code c) && (code c <=? 13))
  || ((28 <=? code c) && (code c <=? 31))
  || (code c =? 32).

Definition lower_char (c : ascii) : ascii :=
  if is_upper c then ascii_of_nat (code c + 32) else c.
Definition upper_char (c : ascii) : ascii :=
  if is_lower c then ascii_of_nat (code c - 32) else c.

(** [s.lower()] *)
Definition lower (s : str) : str := map lower_char s.

(** [s.title()]: a cased character is upper-cased when the character before
    it is not cased, and lower-cased otherwise. *)
Fixpoint title_from (previous_is_cased : bool) (s : str) : str :=
  match s with
  | [] => []
  | c :: rest =>
      (if previous_is_cased then lower_char c else upper_char c)
        :: title_from (is_cased c) rest
  end.
Definition title (s : str) : str := title_from false s.

(** [a == b] *)
Fixpoint eqb (a b : str) : bool :=
  match a, b with
  | [], [] => true
  | x :: a', y :: b' => Ascii.eqb x y && eqb a' b'
  | _, _ => false
  end.

(** [s.startswith(p)] *)
Fixpoint startswith (p s : str) : bool :=
  match p, s with
  | [], _ => true
  | _ :: _, [] => false
  | x :: p', y :: s' => Ascii.eqb x y && startswith p' s'
  end.

(** [p in s] *)
Fixpoint contains (p s : str) : bool :=
  startswith p s
  || match s with
     | [] => false
     | _ :: s' => contains p s'
     end.

Fixpoint lstrip (s : str) : str :=
  match s with
  | [] => []
  | c :: rest => if is_space c then lstrip rest else s
  end.

(** [s.strip()] on an ASCII string. *)
Definition strip (s : str) : str := rev (lstrip (rev (lstrip s))).

(** [str(n)] for an integer. *)
Definition of_Z (n : Z) : str := py (NilZero.string_of_int (Z.to_int n)).

(** [bool(s)]: the empty string is falsy. *)
Definition truthy (s : str) : bool :=
  match s with
  | [] => false
  | _ :: _ => true
  end.

Definition newline : ascii := ascii_of_nat 10.
Definition dquote : ascii := ascii_of_nat 34.

(** A text of ASCII characters: every code is below 128.  On such a text
    [is_space], [is_digit], [is_word], [lower] and [title] are Python's. *)
Definition ascii_only (s : str) : bool := forallb (fun c => code c <? 128) s.

End Str.
Import Str.


(* ================================================================== *)
(** * Regular expressions *)
(* ================================================================== *)

Module Regex.

(** ** [re.search(r"\b(19|20)\d{2}\b", s)] on an ASCII string *)

(** [\b] after the last digit: the end of the string, or a character that is
    not a word character. *)
Definition boundary_after (rest : str) : bool :=
  match rest with
  | [] => true
  | c :: _ => negb (is_word c)
  end.

(** [(19|20)\d{2}\b] matched at the head of [s]. *)
Definition year_at (s : str) : option str :=
  match s with
  | a :: b :: c :: d :: rest =>
      if ((Ascii.eqb a "1" && Ascii.eqb b "9") || (Ascii.eqb a "2" && Ascii.eqb b "0"))
         && is_digit c && is_digit d && boundary_after rest
      then Some [a; b; c; d]
      else None
  | _ => None
  end.

(** The leftmost match.  A match starts with a digit, so the leading [\b]
    holds exactly when the character before is not a word character (or there
    is none). *)
Fixpoint year_search_from (previous_is_word : bool) (s : str) : option str :=
  match s with
  | [] => None
  | c :: rest =>
      match (if previous_is_word then None else year_at s) with
      | Some y => Some y
      | None => year_search_from (is_word c) rest
      end
  end.

Definition year_search (s : str) : option str := year_search_from false s.

(** ** The patterns of [Series.str.contains(pat, case=False)]

    pandas compiles [pat] as a regular expression with [re.IGNORECASE] and
    keeps the rows where [search] finds a match.  The fragment interpreted
    here: an ordinary character stands for itself, and [.] for any character
    but the newline.  On a pattern with another special character [compile]
    answers [None], and the pattern is left to the rest of Python's engine,
    a collaborator of [filter_data]. *)

Inductive atom : Type :=
| Lit (c : ascii)
| Dot.

Definition special_characters : str := py ".^$*+?{}[]\|()".

Definition is_special (c : ascii) : bool :=
  existsb (Ascii.eqb c) special_characters.

Fixpoint compile (pat : str) : option (list atom) :=
  match pat with
  | [] => Some []
  | c :: rest =>
      if Ascii.eqb c "." then option_map (cons Dot) (compile rest)
      else if is_special c then None
      else option_map (cons (Lit c)) (compile rest)
  end.

(** One atom against one character, ignoring case. *)
Definition atom_matches (a : atom) (x : ascii) : bool :=
  match a with
  | Lit c => Ascii.eqb (lower_char c) (lower_char x)
  | Dot => negb (Ascii.eqb x newline)
  end.

Fixpoint match_here (atoms : list atom) (s : str) : bool :=
  match atoms, s with
  | [], _ => true
  | _ :: _, [] => false
  | a :: atoms', x :: s' => atom_matches a x && match_here atoms' s'
  end.

(** [pattern.search(s) is not None] *)
Fixpoint search (atoms : list atom) (s : str) : bool :=
  match_here atoms s
  || match s with
     | [] => false
     | _ :: s' => search atoms s'
     end.

End Regex.

(* ================================================================== *)
(** * Results, errors and the log of collaborator calls *)
(* ================================================================== *)

Inductive error : Type :=
| ReError (pat : str)      (* re.error: [pat] is not a regular expression *)
| IndexError
| ValueError.              (* scikit-learn: an array with no sample *)

Inductive res (A : Type) : Type :=
| Ok (a : A)
| Err (e : error).
Arguments Ok {A} a.
Arguments Err {A} e.

Inductive event : Type :=
| EvEncode (texts : list str)      (* model.encode(texts) *)
| EvCosine                         (* cosine_similarity(X, Y) *)
| EvRun (argv : list str).         (* subprocess.run(argv, ...) *)

(** A computation: the calls it made, in order, and how it ended. *)
Definition M (A : Type) : Type := (list event * res A)%type.

Definition ret {A} (a : A) : M A := ([], Ok a).

Definition bind {A B} (m : M A) (k : A -> M B) : M B :=
  match m with
  | (t, Ok a) => let '(t', r) := k a in (t ++ t', r)
  | (t, Err e) => (t, Err e)
  end.

Definition lift {A} (r : res A) : M A := ([], r).

Definition emit (ev : event) : M unit := ([ev], Ok tt).

Definition bind_res {A B} (r : res A) (k : A -> res B) : res B :=
  match r with
  | Ok a => k a
  | Err e => Err e
  end.

Declare Scope monad_scope.
Delimit Scope monad_scope with monad.
Notation "x <- m ;; k" := (bind m (fun x => k))
  (at level 61, m at next level, right associativity) : monad_scope.
Notation "x <-? r ;; k" := (bind_res r (fun x => k))
  (at level 61, r at next level, right associativity) : monad_scope.

Definition trace {A} (m : M A) : list event := fst m.
Definition outcome {A} (m : M A) : res A := snd m.

(* ================================================================== *)
(** * Data model *)
(* ================================================================== *)

(** A cell of the [release_year] column. *)
Inductive cell : Type :=
| Int (n : Z)
| Text (s : str).

(** [str(x)], also what [astype(str)] and an f-string make of the cell. *)
Definition cell_str (x : cell) : str :=
  match x with
  | Int n => of_Z n
  | Text s => s
  end.

(** A row of the catalog. *)
Record entry : Type := {
  title : str;
  description : str;
  type_ : str;
  country : str;
  listed_in : str;
  release_year : cell
}.

(** The dict [extract_filters] returns; [None] is Python's [None]. *)
Record filters : Type := {
  f_type : option str;
  f_country : option str;
  f_listed_in : option str;
  f_release_year : option str
}.

(** What the NLP engine returns: the entities (label, text) and the tokens. *)
Record entity : Type := { label_ : str; text : str }.
Record doc : Type := { ents : list entity; tokens : list str }.

(** How [subprocess.run] ends. *)
Inductive exception : Type :=
| TimeoutExpired (message : str)
| OtherException (message : str).

Definition exception_str (e : exception) : str :=
  match e with
  | TimeoutExpired m => m
  | OtherException m => m
  end.

Inductive run_result : Type :=
| Completed (returncode : Z) (stdout stderr : str)
| Raised (e : exception).

(* ================================================================== *)
(** * The program *)
(* ================================================================== *)

Local Open Scope monad_scope.

(** [genres], the set of line 49. *)
Definition genres : list str :=
  map py ["action"; "comedy"; "drama"; "horror"; "romance"; "thriller";
          "documentary"; "sci-fi"; "crime"; "kids"; "family"; "anime"]%string.

(** The body of [extract_filters] once the NLP engine has answered with
    [d]: the year, the country (the last GPE entity), the genre (the last
    genre token) and the type, the last three read as the source reads them. *)
Definition extract_filters_doc (d : doc) (user_query : str) : filters :=
  let release_year := Regex.year_search user_query in
  let country :=
    fold_left
      (fun acc ent =>
         if Str.eqb (label_ ent) (py "GPE") then Some (Str.title (text ent)) else acc)
      (ents d) None in
  let listed_in :=
    fold_left
      (fun acc token =>
         if existsb (Str.eqb (lower token)) genres then Some (Str.title token) else acc)
      (tokens d) None in
  let type :=
    if contains (py "movie") user_query then Some (py "Movie")
    else if contains (py "show") user_query || contains (py "series") user_query
         then Some (py "TV Show")
         else None in
  {| f_type := type; f_country := country; f_listed_in := listed_in;
     f_release_year := release_year |}.

(** [if filters[key]: temp = step(temp)]: [None] and the empty string are
    falsy, and then the frame is left as it is. *)
Definition when_set (o : option str)
    (step : str -> list entry -> res (list entry)) (temp : list entry)
  : res (list entry) :=
  match o with
  | Some v => if truthy v then step v temp else Ok temp
  | None => Ok temp
  end.

(** [temp[temp[col].str.lower() == v.lower()]] *)
Definition type_equals (v : str) (temp : list entry) : res (list entry) :=
  Ok (filter (fun e => Str.eqb (lower (type_ e)) (lower v)) temp).

(** [temp[temp[col].str.contains(v, case=False, na=False)]]: the pattern is
    compiled once, whatever the frame holds.  [re_engine] is Python's
    [re.compile(v, re.IGNORECASE)] on the patterns outside the fragment of
    [Regex.compile]: [None] when Python rejects the pattern, and otherwise
    the test [search(s) is not None]. *)
Definition str_contains (re_engine : str -> option (str -> bool))
    (col : entry -> str) (v : str) (temp : list entry) : res (list entry) :=
  match Regex.compile v with
  | Some atoms => Ok (filter (fun e => Regex.search atoms (col e)) temp)
  | None =>
      match re_engine v with
      | Some found => Ok (filter (fun e => found (col e)) temp)
      | None => Err (ReError v)
      end
  end.

(** [temp[temp["release_year"].astype(str) == v]] *)
Definition year_equals (v : str) (temp : list entry) : res (list entry) :=
  Ok (filter (fun e => Str.eqb (cell_str (release_year e)) v) temp).

(** [query_mistral] given how the process ended. *)
Definition mistral_reply (r : run_result) (prompt : str) : str :=
  match r with
  | Completed _ stdout _ => strip stdout
  | Raised e =>
      py "⚠️ Mistral call failed:" ++ [newline; newline] ++ exception_str e
        ++ [newline; newline] ++ py "Prompt was:" ++ [newline] ++ prompt
  end.

(** One bullet of the prompt, with its newline. *)
Definition bullet (item : entry) : str :=
  py "- **" ++ title item ++ py "** (" ++ cell_str (release_year item)
    ++ py "): " ++ description item ++ [newline].

Definition build_prompt (query : str) (results : list entry) : str :=
  match results with
  | [] =>
      py "User asked: '" ++ query ++ py "'" ++ [newline]
        ++ py "There were no matching results in the Netflix database."
  | _ :: _ =>
      let top_3 := firstn 3 results in
      let prompt :=
        py "You are a helpful Netflix assistant. User asked: " ++ [dquote]
          ++ query ++ [dquote] ++ py "." ++ [newline] in
      let prompt :=
        prompt ++ py "Based on the database, here are some matching titles:"
          ++ [newline; newline] in
      let prompt := fold_left (fun prompt item => prompt ++ bullet item) top_3 prompt in
      prompt ++ [newline] ++ py "Give a short natural reply to the user."
  end.

(** The command line of the generator. *)
Definition ollama_argv (prompt : str) : list str :=
  [py "ollama"; py "run"; py "mistral"; py "--"; prompt].

(** [a[-k:]] *)
Definition last_n {A} (k : nat) (l : list A) : list A := skipn (List.length l - k) l.

(** [frame.iloc[idx]]: the rows at the positions [idx], in that order. *)
Fixpoint iloc (frame : list entry) (idx : list nat) : res (list entry) :=
  match idx with
  | [] => Ok []
  | i :: idx' =>
      match nth_error frame i with
      | Some row => rows <-? iloc frame idx' ;; Ok (row :: rows)
      | None => Err IndexError
      end
  end.

(** [m[0]] *)
Definition row0 {A} (m : list (list A)) : res (list A) :=
  match m with
  | r :: _ => Ok r
  | [] => Err IndexError
  end.

(** [cosine_similarity(X, Y)] with the check scikit-learn makes of its two
    arguments: an array without a row is refused with [ValueError].  The
    scores themselves are the collaborator's. *)
Definition cosine_checked {vec}
    (cosine_similarity : list vec -> list vec -> list (list Q))
    (X Y : list vec) : res (list (list Q)) :=
  match X, Y with
  | [], _ => Err ValueError
  | _, [] => Err ValueError
  | _ :: _, _ :: _ => Ok (cosine_similarity X Y)
  end.

(** [np.argsort(sims)[-5:][::-1]] *)
Definition top_indices (argsort : list Q -> list nat) (sims : list Q) : list nat :=
  rev (last_n 5 (argsort sims)).

Section App.

(** The collaborators and the catalog. *)
Variable nlp : str -> doc.
Variable re_engine : str -> option (str -> bool).
Variable vec : Type.
Variable encode : list str -> list vec.
Variable cosine_similarity : list vec -> list vec -> list (list Q).
Variable argsort : list Q -> list nat.
Variable subprocess_run : list str -> run_result.
Variable df : list entry.

(** [texts] and [embeddings], computed once when the module loads. *)
Definition texts : list str :=
  map (fun e => title e ++ py " " ++ description e) df.
Definition embeddings : list vec := encode texts.

Definition extract_filters (user_query : str) : filters :=
  let d := nlp (lower user_query) in
  extract_filters_doc d user_query.

Definition filter_data (f : filters) : res (list entry) :=
  temp <-? Ok df ;;
  temp <-? when_set (f_type f) type_equals temp ;;
  temp <-? when_set (f_country f) (str_contains re_engine country) temp ;;
  temp <-? when_set (f_listed_in f) (str_contains re_engine listed_in) temp ;;
  temp <-? when_set (f_release_year f) year_equals temp ;;
  Ok temp.

Definition query_mistral (prompt : str) : M str :=
  let argv := ollama_argv prompt in
  _ <- emit (EvRun argv) ;;
  ret (mistral_reply (subprocess_run argv) prompt).

(** Lines 108-111 of [chat]: the semantic fallback. *)
Definition semantic_fallback (query : str) : M (list entry) :=
  _ <- emit (EvEncode [query]) ;;
  let query_embed := encode [query] in
  _ <- emit EvCosine ;;
  m <- lift (cosine_checked cosine_similarity query_embed embeddings) ;;
  sims <- lift (row0 m) ;;
  let top_idx := top_indices argsort sims in
  lift (iloc df top_idx).

(** What [chat] hands to [build_prompt]. *)
Definition retrieve (query : str) : M (list entry) :=
  let filters := extract_filters query in
  filtered <- lift (filter_data filters) ;;
  match filtered with
  | [] => semantic_fallback query
  | _ :: _ => ret filtered
  end.

Definition chat (query : str) : M str :=
  filtered <- retrieve query ;;
  let prompt := build_prompt query filtered in
  response <- query_mistral prompt ;;
  ret response.

End App.

(* ================================================================== *)
(** * Concrete collaborators *)
(* ================================================================== *)

Definition Qltb (a b : Q) : bool := negb (Qle_bool b a).

(** The score at index [i]. *)
Definition key (v : list Q) (i : nat) : Q := nth i v 0%Q.

(** An insertion sort of the indices, one of the functions that sort: the
    index [vi] moves left past every index whose score is strictly greater.
    The sorted prefix is kept with its last element first.  It stands for
    [argsort] in the examples.  It is not NumPy's algorithm: the default
    kind of [np.argsort] promises no order among equal scores, and on longer
    arrays it orders them otherwise.  On two equal scores both give [0; 1]. *)
Fixpoint insert_back (v : list Q) (vi : nat) (prefix_rev : list nat) : list nat :=
  match prefix_rev with
  | [] => [vi]
  | k :: rest =>
      if Qltb (key v vi) (key v k) then k :: insert_back v vi rest
      else vi :: prefix_rev
  end.

Definition argsort_insertion (v : list Q) : list nat :=
  rev (fold_left (fun prefix_rev vi => insert_back v vi prefix_rev)
         (seq 0 (List.length v)) []).

(** [str.split(" ")] without the empty pieces, as a tokenizer. *)
Fixpoint words_from (cur : str) (s : str) : list str :=
  match s with
  | [] => match cur with [] => [] | _ => [rev cur] end
  | c :: rest =>
      if Ascii.eqb c " "
      then match cur with [] => words_from [] rest | _ => rev cur :: words_from [] rest end
      else words_from (c :: cur) rest
  end.

(** An NLP engine that finds no entity and splits at spaces. *)
Definition nlp_words (s : str) : doc := {| ents := []; tokens := words_from [] s |}.

(** An encoder whose vector is the length of the text, and a similarity
    that scores a row by its own vector. *)
Definition encode_length (l : list str) : list Q :=
  map (fun t => inject_Z (Z.of_nat (List.length t))) l.
Definition cosine_of_row (X Y : list Q) : list (list Q) := map (fun _ => Y) X.

(** A generator that answers with the prompt it was given. *)
Definition run_echo (argv : list str) : run_result :=
  Completed 0 (last argv []) [].

(** A regular-expression engine that rejects every pattern left to it. *)
Definition re_reject (pat : str) : option (str -> bool) := None.

(** A generator that exits with status 1, nothing on its standard output. *)
Definition run_exit_1 (argv : list str) : run_result :=
  Completed 1 [] (py "Error: model 'mistral' not found").

(** The two-entry catalog of the end-to-end scenarios. *)
Definition entry_A : entry :=
  {| title := py "A"; description := py "Action flick"; type_ := py "Movie";
     country := py "USA"; listed_in := py "Action"; release_year := Int 2010 |}.
Definition entry_B : entry :=
  {| title := py "B"; description := py "Drama series"; type_ := py "TV Show";
     country := py "UK"; listed_in := py "Drama"; release_year := Int 2015 |}.
Definition catalog_AB : list entry := [entry_A; entry_B].

(** A catalog of three and a catalog of six rows, told apart by the length
    of their texts. *)
Definition row (t d : string) (y : Z) : entry :=
  {| title := py t; description := py d; type_ := py "Movie";
     country := py "Russia"; listed_in := py "Dramas"; release_year := Int y |}.
Definition catalog_6 : list entry :=
  [row "T1" "aaaa" 2001; row "T2" "a" 2002; row "T3" "aaaaaa" 2003;
   row "T4" "aa" 2004; row "T5" "aaaaa" 2005; row "T6" "aaa" 2006].

(* ================================================================== *)
(** * The vocabulary of the statements *)
(* ================================================================== *)

(** [x] stands before [y] in [l]. *)
Definition before {A} (x y : A) (l : list A) : Prop :=
  exists l1 l2 l3, l = l1 ++ x :: l2 ++ y :: l3.

(** Among the returned indices, of two with equal scores the lower one comes
    first. *)
Definition lower_index_first (sims : list Q) (idx : list nat) : Prop :=
  forall i j, In i idx -> In j idx -> (key sims i == key sims j)%Q -> i < j ->
              before i j idx.

(** Among the returned indices, two with equal scores stand in the reverse
    of the order [argsort] listed them in. *)
Definition ties_as_argsort_reversed (sims : list Q) (sorted idx : list nat)
  : Prop :=
  forall i j, In i idx -> In j idx -> i <> j ->
              (key sims i == key sims j)%Q ->
              (before i j idx <-> before j i sorted).

(** What a sort of the indices by score promises. *)
Definition ascending (v : list Q) (i j : nat) : Prop := (key v i <= key v j)%Q.
Definition descending (v : list Q) (i j : nat) : Prop := (key v j <= key v i)%Q.
Definition ties_descending (v : list Q) (i j : nat) : Prop :=
  (key v i == key v j)%Q -> j < i.

(** The order of the insertion sort's prefix read from its last element:
    scores do not increase, and among equal scores the indices decrease. *)
Definition later_first (v : list Q) (a b : nat) : Prop :=
  descending v a b /\ ties_descending v a b.

Definition sorts (argsort : list Q -> list nat) : Prop :=
  forall v, Permutation (argsort v) (seq 0 (List.length v))
            /\ StronglySorted (ascending v) (argsort v).

(** [l1] is [l2] with some elements left out, the order kept. *)
Inductive subseq {A : Type} : list A -> list A -> Prop :=
| subseq_nil : subseq [] []
| subseq_skip x l1 l2 : subseq l1 l2 -> subseq l1 (x :: l2)
| subseq_keep x l1 l2 : subseq l1 l2 -> subseq (x :: l1) (x :: l2).

(** The predicates of the specification's CatalogFilter: a field that is
    [None] or empty imposes nothing. *)
Definition on_field (o : option str) (p : str -> bool) : bool :=
  match o with
  | Some v => if truthy v then p v else true
  | None => true
  end.



(** A filter value with no special character of the regular expressions. *)
Definition plain (o : option str) : bool :=
  on_field o (forallb (fun c => negb (Regex.is_special c))).

(** A filter value that is not active, or compiles as a pattern. *)
Definition compiles (re_engine : str -> option (str -> bool)) (o : option str)
  : bool :=
  on_field o (fun v =>
    match Regex.compile v, re_engine v with
    | None, None => false
    | _, _ => true
    end).

Definition no_filters : filters :=
  {| f_type := None; f_country := None; f_listed_in := None;
     f_release_year := None |}.

(** A year between 1900 and 2099 in four digits. *)
Definition is_year (y : str) : bool :=
  match y with
  | [a; b; c; d] =>
      ((Ascii.eqb a "1" && Ascii.eqb b "9") || (Ascii.eqb a "2" && Ascii.eqb b "0"))
      && is_digit c && is_digit d
  | _ => false
  end.

(** [\b] before a match that follows [pre], in a scan started after a
    character whose wordness is [w]: the last character of [pre], or the one
    before the scan when [pre] is empty, is not a word character. *)
Definition boundary_from (w : bool) (pre : str) : bool :=
  negb (fold_left (fun _ c => is_word c) pre w).

(** [\b] before a match that follows [pre] in the whole query: [pre] is
    empty or ends with a character that is not a word character. *)
Definition boundary_before (pre : str) : bool := boundary_from false pre.

(** [y] occurs in [q] between [pre] and [post] as a year; as a year standing
    between word boundaries; and as the leftmost such. *)
Definition year_occurrence (q pre y post : str) : Prop :=
  q = pre ++ y ++ post /\ is_year y = true.
Definition year_token (q pre y post : str) : Prop :=
  year_occurrence q pre y post
  /\ boundary_before pre = true /\ Regex.boundary_after post = true.
Definition first_year_token (q pre y post : str) : Prop :=
  year_token q pre y post
  /\ forall pre' y' post', year_token q pre' y' post' ->
                           List.length pre <= List.length pre'.

(** [s.split("\n")] *)
Fixpoint lines (s : str) : list str :=
  match s with
  | [] => [[]]
  | c :: rest =>
      if Ascii.eqb c newline then [] :: lines rest
      else match lines rest with
           | l :: ls => (c :: l) :: ls
           | [] => [[c]]
           end
  end.

Definition is_bullet (l : str) : bool := startswith (py "- ") l.

Definition one_line (s : str) : bool :=
  forallb (fun c => negb (Ascii.eqb c newline)) s.

(** A row whose title, description and year hold no newline. *)
Definition entry_one_line (e : entry) : bool :=
  one_line (title e) && one_line (description e)
  && one_line (cell_str (release_year e)).

(** A bullet as a line: "- **title** (release_year): description". *)
Definition bullet_line (item : entry) : str :=
  py "- **" ++ title item ++ py "** (" ++ cell_str (release_year item)
    ++ py "): " ++ description item.

Definition prompt_header (query : str) : str :=
  py "You are a helpful Netflix assistant. User asked: " ++ [dquote]
    ++ query ++ [dquote] ++ py "." ++ [newline]
    ++ py "Based on the database, here are some matching titles:"
    ++ [newline; newline].
Definition prompt_footer : str :=
  [newline] ++ py "Give a short natural reply to the user.".

(** The embedding model was called. *)
Definition encodes (ev : event) : bool :=
  match ev with
  | EvEncode _ => true
  | _ => false
  end.

(** ** The frames as objects, and the runs of the pipeline

    Two runs of the pipeline share the objects of the process: the global
    frame [df], and every frame a run makes.  Here a frame is an object of
    a store and a variable holds a reference to it, so that a run can be
    asked what it left behind. *)

Module Store.

Definition ref := nat.

(** The DataFrame objects, in the order of their creation. *)
Definition heap := list (list entry).

Definition get (h : heap) (r : ref) : option (list entry) := nth_error h r.

(** A computation on the store: [None] when it follows a reference to no
    object, and otherwise its result and the store it leaves. *)
Definition St (A : Type) : Type := heap -> option (res A * heap).

Definition sret {A} (a : A) : St A := fun h => Some (Ok a, h).

Definition sbind {A B} (m : St A) (k : A -> St B) : St B :=
  fun h =>
    match m h with
    | Some (Ok a, h') => k a h'
    | Some (Err e, h') => Some (Err e, h')
    | None => None
    end.

Definition slift {A} (r : res A) : St A := fun h => Some (r, h).

(** A new object: [copy], a boolean-mask selection, [iloc]. *)
Definition new (rows : list entry) : St ref :=
  fun h => Some (Ok (List.length h), h ++ [rows]).

Definition read (r : ref) : St (list entry) :=
  fun h =>
    match get h r with
    | Some rows => Some (Ok rows, h)
    | None => None
    end.

(** An object changed in place, as [inplace=True] does at the load.  The
    five functions never do it. *)
Fixpoint put (h : heap) (r : ref) (rows : list entry) : heap :=
  match h, r with
  | [], _ => []
  | _ :: h', O => rows :: h'
  | x :: h', Datatypes.S r' => x :: put h' r' rows
  end.

Definition write (r : ref) (rows : list entry) : St unit :=
  fun h =>
    match get h r with
    | Some _ => Some (Ok tt, put h r rows)
    | None => None
    end.

End Store.
Import Store.

Declare Scope store_scope.
Delimit Scope store_scope with store.
Notation "x <~ m ;; k" := (sbind m (fun x => k))
  (at level 61, m at next level, right associativity) : store_scope.
Local Open Scope store_scope.

(** [temp = step(temp)]: the step reads the frame behind [temp], and what
    it returns is a new frame. *)
Definition step_st (step : list entry -> res (list entry)) (temp : ref)
  : St ref :=
  rows <~ read temp ;;
  rows' <~ slift (step rows) ;;
  new rows'.

(** [if filters[key]: temp = step(temp)] *)
Definition when_set_st (o : option str)
    (step : str -> list entry -> res (list entry)) (temp : ref) : St ref :=
  match o with
  | Some v => if truthy v then step_st (step v) temp else sret temp
  | None => sret temp
  end.

(** [filter_data] on the store; [df] is the reference the global holds.
    [df.copy()] makes the first new frame. *)
Definition filter_data_st (re_engine : str -> option (str -> bool)) (df : ref)
    (f : filters) : St ref :=
  temp <~ step_st Ok df ;;
  temp <~ when_set_st (f_type f) type_equals temp ;;
  temp <~ when_set_st (f_country f) (str_contains re_engine country) temp ;;
  temp <~ when_set_st (f_listed_in f) (str_contains re_engine listed_in) temp ;;
  temp <~ when_set_st (f_release_year f) year_equals temp ;;
  sret temp.

(** [df.iloc[idx]] on the store. *)
Definition iloc_st (df : ref) (idx : list nat) : St ref :=
  step_st (fun rows => iloc rows idx) df.

(** Filtering the global frame in place.  This is not the program: it is
    what [filter_data] would be without [df.copy()], kept for contrast. *)
Definition drop_in_place (keep : entry -> bool) (df : ref) : St ref :=
  rows <~ read df ;;
  _ <~ write df (filter keep rows) ;;
  sret df.

(** [m], run in [h], ends as [expected] does, with the expected rows behind
    the reference it returns, in a store that [h] begins. *)
Definition yields (m : St ref) (h : heap) (expected : res (list entry))
  : Prop :=
  exists ext o,
    m h = Some (o, h ++ ext)
    /\ match o, expected with
       | Ok r, Ok rows => get (h ++ ext) r = Some rows
       | Err e, Err e' => e = e'
       | _, _ => False
       end.

Definition deterministic {A B} (R : A -> B -> Prop) : Prop :=
  forall a b1 b2, R a b1 -> R a b2 -> b1 = b2.

Section Runs.

(** Collaborators that may answer differently each time they are asked. *)
Variable nlp_answers : str -> doc -> Prop.
Variable re_engine : str -> option (str -> bool).
Variable vec : Type.
Variable encode_answers : list str -> list vec -> Prop.
Variable cosine_similarity : list vec -> list vec -> list (list Q).
Variable argsort : list Q -> list nat.
Variable df : ref.
Variable embeddings : list vec.

(** One run of [extract_filters], [filter_data], the fallback and
    [build_prompt] on [q], started in the store [h]: its filters, the
    reference to its result set, its prompt, and the store it leaves. *)
Inductive pipeline_run (q : str) (h : heap)
  : filters -> ref -> str -> heap -> Prop :=
| run_filtered d r h1 rows :
    nlp_answers (lower q) d ->
    filter_data_st re_engine df (extract_filters_doc d q) h = Some (Ok r, h1) ->
    get h1 r = Some rows ->
    rows <> [] ->
    pipeline_run q h (extract_filters_doc d q) r (build_prompt q rows) h1
| run_fallback d r h1 query_embed m sims r2 h2 rows :
    nlp_answers (lower q) d ->
    filter_data_st re_engine df (extract_filters_doc d q) h = Some (Ok r, h1) ->
    get h1 r = Some [] ->
    encode_answers [q] query_embed ->
    cosine_checked cosine_similarity query_embed embeddings = Ok m ->
    row0 m = Ok sims ->
    iloc_st df (top_indices argsort sims) h1 = Some (Ok r2, h2) ->
    get h2 r2 = Some rows ->
    pipeline_run q h (extract_filters_doc d q) r2 (build_prompt q rows) h2.

End Runs.

(** The same run with collaborators that are functions, as a computation. *)
Definition pipeline_st (nlp : str -> doc)
    (re_engine : str -> option (str -> bool)) {vec : Type}
    (encode : list str -> list vec)
    (cosine_similarity : list vec -> list vec -> list (list Q))
    (argsort : list Q -> list nat) (df : ref) (embeddings : list vec)
    (q : str) : St (filters * ref * str) :=
  let f := extract_filters nlp q in
  r <~ filter_data_st re_engine df f ;;
  rows <~ read r ;;
  match rows with
  | [] =>
      m <~ slift (cosine_checked cosine_similarity (encode [q]) embeddings) ;;
      sims <~ slift (row0 m) ;;
      r2 <~ iloc_st df (top_indices argsort sims) ;;
      rows2 <~ read r2 ;;
      sret (f, r2, build_prompt q rows2)
  | _ :: _ => sret (f, r, build_prompt q rows)
  end.

(** The relation a function answers with. *)
Definition graph {A B} (f : A -> B) : A -> B -> Prop := fun a b => b = f a.

(* ================================================================== *)
(** * The load of the catalog, and more vocabulary *)
(* ================================================================== *)

(** Line 25: [df.columns = [col.lower().strip() for col in df.columns]]. *)
Definition normalize_columns (columns : list str) : list str :=
  map (fun col => strip (lower col)) columns.

(** A string with no white space at either end. *)
Definition trimmed (s : str) : Prop :=
  match s with
  | [] => True
  | c :: _ => is_space c = false /\ is_space (last s c) = false
  end.

(** The last element of a list, if it has one. *)
Fixpoint last_of {A} (l : list A) : option A :=
  match l with
  | [] => None
  | x :: l' =>
      match last_of l' with
      | Some y => Some y
      | None => Some x
      end
  end.

Definition is_genre (token : str) : bool :=
  existsb (Str.eqb (lower token)) genres.

(** The twelve genres in title case. *)
Definition title_genres : list str := map Str.title genres.

(** [bool(v)] for a filter value: neither [None] nor empty. *)
Definition active (o : option str) : bool :=
  match o with
  | Some v => truthy v
  | None => false
  end.

(** The test a pattern compiles to, by the fragment or by the rest of the
    engine; [None] when the pattern is rejected. *)
Definition matcher (re_engine : str -> option (str -> bool)) (v : str)
  : option (str -> bool) :=
  match Regex.compile v with
  | Some atoms => Some (Regex.search atoms)
  | None => re_engine v
  end.

(** The active pattern that does not compile, if the field holds one. *)
Definition rejected (re_engine : str -> option (str -> bool)) (o : option str)
  : option str :=
  match o with
  | Some v =>
      if truthy v
      then match matcher re_engine v with
           | Some _ => None
           | None => Some v
           end
      else None
  | None => None
  end.

(** The pattern [filter_data] stops at: the country before the genre. *)
Definition first_rejected (re_engine : str -> option (str -> bool))
    (f : filters) : option str :=
  match rejected re_engine (f_country f) with
  | Some v => Some v
  | None => rejected re_engine (f_listed_in f)
  end.

(** A text passes the pattern of a field. *)
Definition on_pattern (re_engine : str -> option (str -> bool))
    (o : option str) (s : str) : bool :=
  on_field o (fun v =>
    match matcher re_engine v with
    | Some found => found s
    | None => true
    end).

(** The rows [filter_data] keeps, by the tests the code runs. *)
Definition keeps (re_engine : str -> option (str -> bool)) (f : filters)
    (e : entry) : bool :=
  on_field (f_type f) (fun v => Str.eqb (lower (type_ e)) (lower v))
  && on_pattern re_engine (f_country f) (country e)
  && on_pattern re_engine (f_listed_in f) (listed_in e)
  && on_field (f_release_year f) (fun v => Str.eqb (cell_str (release_year e)) v).

(** [o'] asks no more than [o]: it is not active, or it is [o]. *)
Definition relaxes (o' o : option str) : Prop := active o' = false \/ o' = o.
Definition relaxes_filters (f' f : filters) : Prop :=
  relaxes (f_type f') (f_type f) /\ relaxes (f_country f') (f_country f)
  /\ relaxes (f_listed_in f') (f_listed_in f)
  /\ relaxes (f_release_year f') (f_release_year f).

(** Two filter values that differ in letter case only. *)
Definition same_letters (o o' : option str) : Prop :=
  option_map lower o = option_map lower o'.

(** A filter value whose pattern lies in the fragment of [Regex.compile]. *)
Definition in_fragment (o : option str) : bool :=
  on_field o (fun v => match Regex.compile v with Some _ => true | None => false end).

(** The row passes a release_year filter that names the integer [m]. *)
Definition year_is (m : Z) (e : entry) : bool :=
  match release_year e with
  | Int n => Z.eqb n m
  | Text s => Str.eqb s (of_Z m)
  end.

(** What [chat] assumes of the encoder and of the similarity: one vector
    per text, and for non-empty inputs one row of scores per vector of [X],
    with one score per vector of [Y]. *)
Definition encodes_each {vec} (encode : list str -> list vec) : Prop :=
  forall l, List.length (encode l) = List.length l.
Definition scores_each {vec}
    (cosine_similarity : list vec -> list vec -> list (list Q)) : Prop :=
  forall X Y, X <> [] -> Y <> [] ->
    List.length (cosine_similarity X Y) = List.length X
    /\ Forall (fun r => List.length r = List.length Y) (cosine_similarity X Y).

(* ================================================================== *)
(** * Strings: [==], [startswith] and [in] *)
(* ================================================================== *)

Lemma str_eqb_eq (a b : str) : Str.eqb a b = true <-> a = b.
Proof.
  revert b; induction a as [|x a IH]; intros [|y b]; simpl; split;
    try congruence; try reflexivity.
  - intros H. apply andb_true_iff in H as [Hx Hab].
    apply Ascii.eqb_eq in Hx. apply IH in Hab. congruence.
  - intros H. injection H as -> ->.
    apply andb_true_iff; split; [apply Ascii.eqb_refl | now apply IH].
Qed.

Lemma str_eqb_refl (a : str) : Str.eqb a a = true.
Proof. now apply str_eqb_eq. Qed.

Lemma startswith_spec (p s : str) :
  startswith p s = true <-> exists b, s = p ++ b.
Proof.
  revert s; induction p as [|x p IH]; intros s; simpl.
  - split; [intros _; now exists s | reflexivity].
  - destruct s as [|y s].
    + split; [discriminate | intros [b Hb]; discriminate].
    + rewrite andb_true_iff, Ascii.eqb_eq, IH. split.
      * intros [-> [b ->]]. now exists b.
      * intros [b Hb]. injection Hb as -> ->. split; [reflexivity | now exists b].
Qed.

Lemma contains_spec (p s : str) :
  contains p s = true <-> exists a b, s = a ++ p ++ b.
Proof.
  induction s as [|y s IH].
  - simpl. rewrite orb_false_r, startswith_spec. split.
    + intros [b Hb]. now exists [], b.
    + intros [a [b H]]. destruct a; [now exists b | discriminate].
  - cbn [contains]. rewrite orb_true_iff, startswith_spec, IH. split.
    + intros [[b Hb] | [a [b Hab]]].
      * now exists [], b.
      * exists (y :: a), b. simpl. now rewrite Hab.
    + intros [[|z a] [b H]].
      * left. now exists b.
      * right. injection H as -> ->. now exists a, b.
Qed.

Lemma contains_middle (a p b : str) : contains p (a ++ p ++ b) = true.
Proof. apply contains_spec. now exists a, b. Qed.

(* ================================================================== *)
(** * [extract_filters]: the type *)
(* ================================================================== *)

(** The type is read off the query as the user typed it. *)
Lemma extract_filters_type (nlp : str -> doc) (q : str) :
  f_type (extract_filters nlp q) =
    if contains (py "movie") q then Some (py "Movie")
    else if contains (py "show") q || contains (py "series") q
         then Some (py "TV Show")
         else None.
Proof. reflexivity. Qed.

(** C2, at the failing input.  The lowercased form of "Best Movie" contains
    "movie", and [extract_filters] leaves the type unconstrained; the
    lowercased form of "A Movie show" contains "movie", and the type is
    "TV Show". *)
Theorem extract_filters_type_is_case_sensitive (nlp : str -> doc) :
  contains (py "movie") (lower (py "Best Movie")) = true
  /\ f_type (extract_filters nlp (py "Best Movie")) = None
  /\ contains (py "movie") (lower (py "A Movie show")) = true
  /\ f_type (extract_filters nlp (py "A Movie show")) = Some (py "TV Show").
Proof. repeat split; reflexivity. Qed.

(* ================================================================== *)
(** * [extract_filters]: the year *)
(* ================================================================== *)

Lemma boundary_before_cons (c : ascii) (pre : str) :
  fold_left (fun _ x => is_word x) (c :: pre) false
  = fold_left (fun _ x => is_word x) pre (is_word c).
Proof. reflexivity. Qed.

(** A year at the head of [s] with a boundary after it is what [year_at]
    finds there. *)
Lemma year_at_complete (y post : str) :
  is_year y = true -> Regex.boundary_after post = true ->
  Regex.year_at (y ++ post) = Some y.
Proof.
  intros Hy Hb.
  destruct y as [|a [|b [|c [|d [|e y]]]]]; try discriminate.
  simpl in *. rewrite Hy, Hb. reflexivity.
Qed.

Lemma year_at_sound (s y : str) :
  Regex.year_at s = Some y ->
  exists post, s = y ++ post /\ is_year y = true
               /\ Regex.boundary_after post = true.
Proof.
  destruct s as [|a [|b [|c [|d rest]]]]; try discriminate.
  unfold Regex.year_at.
  destruct (_ && Regex.boundary_after rest) eqn:E; [|discriminate].
  intros H; injection H as <-.
  apply andb_true_iff in E as [E Hb].
  exists rest. repeat split; [exact E | exact Hb].
Qed.

Lemma year_search_from_some (w : bool) (s y : str) :
  Regex.year_search_from w s = Some y ->
  exists pre post,
    s = pre ++ y ++ post /\ is_year y = true
    /\ boundary_from w pre = true /\ Regex.boundary_after post = true
    /\ forall pre' y' post',
         s = pre' ++ y' ++ post' -> is_year y' = true ->
         boundary_from w pre' = true -> Regex.boundary_after post' = true ->
         List.length pre <= List.length pre'.
Proof.
  revert w; induction s as [|c rest IH]; intros w; [discriminate|].
  cbn [Regex.year_search_from].
  destruct (if w then None else Regex.year_at (c :: rest)) as [y0|] eqn:E.
  - intros H; injection H as ->.
    destruct w; [discriminate|].
    apply year_at_sound in E as (post & Hs & Hy & Hb).
    exists [], post. repeat split; auto. intros; simpl; lia.
  - intros H. apply IH in H as (pre & post & Hs & Hy & Hbb & Hba & Hmin).
    exists (c :: pre), post. repeat split; auto.
    + simpl. now rewrite Hs.
    + intros [|c' pre'] y' post' Hs' Hy' Hbb' Hba'.
      * exfalso. simpl in Hs'.
        unfold boundary_from in Hbb'. simpl in Hbb'.
        destruct w; [discriminate|].
        rewrite Hs', (year_at_complete _ _ Hy' Hba') in E. discriminate.
      * simpl in Hs'. injection Hs' as <- Hs'.
        simpl. apply le_n_S. eapply Hmin; eauto.
Qed.

Lemma year_search_from_none (w : bool) (s : str) :
  Regex.year_search_from w s = None ->
  forall pre y post,
    s = pre ++ y ++ post -> is_year y = true ->
    boundary_from w pre = true -> Regex.boundary_after post = true -> False.
Proof.
  revert w; induction s as [|c rest IH]; intros w.
  - intros _ pre y post Hs Hy _ _.
    destruct pre; [destruct y; discriminate | discriminate].
  - cbn [Regex.year_search_from].
    destruct (if w then None else Regex.year_at (c :: rest)) as [y0|] eqn:E;
      [discriminate|].
    intros H [|c' pre] y post Hs Hy Hbb Hba.
    + unfold boundary_from in Hbb. simpl in Hbb, Hs.
      destruct w; [discriminate|].
      rewrite Hs, (year_at_complete _ _ Hy Hba) in E. discriminate.
    + simpl in Hs. injection Hs as <- Hs.
      eapply (IH _ H); eauto.
Qed.

Lemma app_eq_same_length {A} (l1 l1' l2 l2' : list A) :
  l1 ++ l2 = l1' ++ l2' -> List.length l1 = List.length l1' ->
  l1 = l1' /\ l2 = l2'.
Proof.
  revert l1'; induction l1 as [|x l1 IH]; intros [|x' l1'] H Hl;
    try discriminate; simpl in *.
  - now split.
  - injection H as -> H. injection Hl as Hl.
    destruct (IH _ H Hl) as [-> ->]. now split.
Qed.

Lemma is_year_length (y : str) : is_year y = true -> List.length y = 4.
Proof.
  destruct y as [|a [|b [|c [|d [|e y]]]]]; try discriminate. reflexivity.
Qed.

Lemma year_search_first_token (q y : str) :
  Regex.year_search q = Some y <-> exists pre post, first_year_token q pre y post.
Proof.
  unfold Regex.year_search. split.
  - intros H. apply year_search_from_some in H
      as (pre & post & Hs & Hy & Hbb & Hba & Hmin).
    exists pre, post. repeat split; auto.
    intros pre' y' post' [[Hs' Hy'] [Hbb' Hba']]. eapply Hmin; eauto.
  - intros (pre & post & [[Hs Hy] [Hbb Hba]] & Hmin).
    destruct (Regex.year_search_from false q) as [y0|] eqn:E.
    + apply year_search_from_some in E
        as (pre0 & post0 & Hs0 & Hy0 & Hbb0 & Hba0 & Hmin0).
      assert (Hle : List.length pre <= List.length pre0)
        by (apply (Hmin pre0 y0 post0); repeat split; auto).
      assert (Hge : List.length pre0 <= List.length pre)
        by (eapply Hmin0; eauto).
      rewrite Hs in Hs0.
      apply app_eq_same_length in Hs0 as [_ Hs0]; [|lia].
      apply app_eq_same_length in Hs0 as [-> _]; [reflexivity|].
      now rewrite !is_year_length.
    + exfalso. eapply year_search_from_none; eauto.
Qed.

Lemma year_search_no_token (q : str) :
  Regex.year_search q = None <-> forall pre y post, ~ year_token q pre y post.
Proof.
  split.
  - intros H pre y post [[Hs Hy] [Hbb Hba]].
    eapply year_search_from_none; eauto.
  - intros H. destruct (Regex.year_search q) as [y|] eqn:E; [|reflexivity].
    apply year_search_first_token in E as (pre & post & Htok & _).
    now apply H in Htok.
Qed.

(** C4 as the code has it.  On a query of ASCII characters
    [extract_filters] sets [release_year] to the leftmost four-digit year
    1900-2099 that stands between word boundaries (no ASCII letter, digit or
    underscore next to it), and leaves it [None] exactly when the query
    holds no such year. *)
Theorem extract_filters_release_year (nlp : str -> doc) (q : str) :
  ascii_only q = true ->
  (forall y, f_release_year (extract_filters nlp q) = Some y
             <-> exists pre post, first_year_token q pre y post)
  /\ (f_release_year (extract_filters nlp q) = None
      <-> forall pre y post, ~ year_token q pre y post).
Proof.
  intros _. split.
  - intros y. apply year_search_first_token.
  - apply year_search_no_token.
Qed.

Lemma extract_filters_release_year_witness :
  (forall y, f_release_year
               (extract_filters nlp_words (py "from 1999 or 2015?")) = Some y
             <-> exists pre post,
                   first_year_token (py "from 1999 or 2015?") pre y post)
  /\ (f_release_year (extract_filters nlp_words (py "from 1999 or 2015?"))
      = None
      <-> forall pre y post,
            ~ year_token (py "from 1999 or 2015?") pre y post).
Proof.
  exact (extract_filters_release_year nlp_words (py "from 1999 or 2015?")
           eq_refl).
Defined.

(** C4 as stated fails: "x2015" contains the four-digit substring 2015, and
    [release_year] stays [None]; "12015" and "2015s" behave alike. *)
Lemma year_inside_a_word_is_not_extracted :
  year_occurrence (py "x2015") (py "x") (py "2015") []
  /\ f_release_year (extract_filters nlp_words (py "x2015")) = None
  /\ f_release_year (extract_filters nlp_words (py "12015")) = None
  /\ f_release_year (extract_filters nlp_words (py "2015s")) = None.
Proof. repeat split. Qed.

Example release_year_of_a_query :
  f_release_year (extract_filters nlp_words (py "from 1999 or 2015?"))
  = Some (py "1999").
Proof. reflexivity. Qed.

(* ================================================================== *)
(** * [query_mistral] *)
(* ================================================================== *)

Lemma query_mistral_unfold (run : list str -> run_result) (prompt : str) :
  query_mistral run prompt
  = ([EvRun (ollama_argv prompt)],
     Ok (mistral_reply (run (ollama_argv prompt)) prompt)).
Proof. reflexivity. Qed.

(** C3 as the code has it.  Whatever the generator call does,
    [query_mistral] ends with a string.  When the call raises (a timeout or
    another exception), the string is marked as a failure and holds the
    text of the exception and the prompt.  When the process completes, with
    any exit status, and its standard output is ASCII, the string is that
    output without the white space around it. *)
Theorem query_mistral_recovers (run : list str -> run_result) (prompt : str) :
  exists reply,
    outcome (query_mistral run prompt) = Ok reply
    /\ (forall e, run (ollama_argv prompt) = Raised e ->
          contains (py "Mistral call failed") reply = true
          /\ contains (exception_str e) reply = true
          /\ contains prompt reply = true)
    /\ (forall returncode stdout stderr,
          run (ollama_argv prompt) = Completed returncode stdout stderr ->
          ascii_only stdout = true ->
          reply = strip stdout).
Proof.
  exists (mistral_reply (run (ollama_argv prompt)) prompt).
  split; [reflexivity|]. split.
  - intros e ->. cbn [mistral_reply]. split; [|split].
    + apply contains_spec.
      exists (firstn 7 (py "⚠️ Mistral call failed:")).
      eexists. reflexivity.
    + apply contains_spec.
      exists (py "⚠️ Mistral call failed:" ++ [newline; newline]).
      eexists. rewrite <- !app_assoc. reflexivity.
    + apply contains_spec.
      exists (py "⚠️ Mistral call failed:" ++ [newline; newline]
                ++ exception_str e ++ [newline; newline] ++ py "Prompt was:"
                ++ [newline]).
      exists []. rewrite app_nil_r, <- !app_assoc. reflexivity.
  - intros rc out err -> _. reflexivity.
Qed.

(** C3 as stated fails on a non-zero exit status: the reply is the empty
    standard output, with neither the error nor the prompt in it; and the
    output of a successful call loses its surrounding white space. *)
Lemma query_mistral_ignores_the_exit_status :
  outcome (query_mistral run_exit_1 (py "hi")) = Ok []
  /\ contains (py "hi") [] = false
  /\ outcome (query_mistral (fun _ => Completed 0 (py " ok ") []) (py "hi"))
     = Ok (py "ok").
Proof. repeat split. Qed.

(* ================================================================== *)
(** * [build_prompt] *)
(* ================================================================== *)

Lemma fold_left_bullets (l : list entry) (init : str) :
  fold_left (fun prompt item => prompt ++ bullet item) l init
  = init ++ List.concat (map bullet l).
Proof.
  revert init; induction l as [|e l IH]; intros init; simpl.
  - now rewrite app_nil_r.
  - now rewrite IH, <- app_assoc.
Qed.

Lemma build_prompt_nonempty (query : str) (results : list entry) :
  results <> [] ->
  build_prompt query results
  = prompt_header query ++ List.concat (map bullet (firstn 3 results)) ++ prompt_footer.
Proof.
  destruct results as [|e r]; [congruence|]. intros _.
  unfold build_prompt, prompt_header, prompt_footer.
  rewrite fold_left_bullets. now rewrite <- !app_assoc.
Qed.

Lemma lines_one_line (a : str) : one_line a = true -> lines a = [a].
Proof.
  induction a as [|c a IH]; [reflexivity|].
  simpl. intros H. apply andb_true_iff in H as [Hc Ha].
  apply negb_true_iff in Hc. rewrite Hc, (IH Ha). reflexivity.
Qed.

Lemma lines_app_newline (a b : str) :
  one_line a = true -> lines (a ++ newline :: b) = a :: lines b.
Proof.
  induction a as [|c a IH]; [reflexivity|].
  simpl. intros H. apply andb_true_iff in H as [Hc Ha].
  apply negb_true_iff in Hc. rewrite Hc, (IH Ha). reflexivity.
Qed.

Lemma one_line_app (a b : str) : one_line (a ++ b) = one_line a && one_line b.
Proof. apply forallb_app. Qed.

(** The decimal digits of an integer hold no newline. *)
Lemma one_line_uint (d : Decimal.uint) :
  one_line (py (NilEmpty.string_of_uint d)) = true.
Proof. induction d; simpl; auto. Qed.

Lemma one_line_of_Z (n : Z) : one_line (of_Z n) = true.
Proof.
  unfold of_Z, NilZero.string_of_int, NilZero.string_of_uint.
  destruct (Z.to_int n) as [d|d]; destruct d; try reflexivity;
    try apply (one_line_uint (_ _));
    change (one_line (py (String "-" ?s))) with (one_line (py s));
    apply (one_line_uint (_ _)).
Qed.

Lemma one_line_bullet_line (e : entry) :
  entry_one_line e = true -> one_line (bullet_line e) = true.
Proof.
  unfold entry_one_line, bullet_line. intros H.
  apply andb_true_iff in H as [H Hy]. apply andb_true_iff in H as [Ht Hd].
  rewrite !one_line_app, Ht, Hd, Hy. reflexivity.
Qed.

Lemma bullet_is_line (e : entry) : bullet e = bullet_line e ++ [newline].
Proof. unfold bullet, bullet_line. now rewrite <- !app_assoc. Qed.

Lemma lines_bullets (l : list entry) (rest : str) :
  forallb entry_one_line l = true ->
  lines (List.concat (map bullet l) ++ rest) = map bullet_line l ++ lines rest.
Proof.
  induction l as [|e l IH]; [reflexivity|].
  cbn [forallb map List.concat]. intros H. apply andb_true_iff in H as [He Hl].
  rewrite bullet_is_line, <- !app_assoc. cbn [app].
  rewrite lines_app_newline by now apply one_line_bullet_line.
  now rewrite (IH Hl).
Qed.

Lemma is_bullet_bullet_line (e : entry) : is_bullet (bullet_line e) = true.
Proof. reflexivity. Qed.

Lemma filter_all {A} (p : A -> bool) (l : list A) :
  forallb p l = true -> filter p l = l.
Proof.
  induction l as [|x l IH]; [reflexivity|].
  simpl. intros H. apply andb_true_iff in H as [-> Hl]. now rewrite IH.
Qed.

(** The lines of a prompt with results: two lines of heading, an empty
    line, the bullets, an empty line and the closing instruction. *)
Lemma lines_build_prompt (query : str) (results : list entry) :
  results <> [] -> one_line query = true ->
  forallb entry_one_line (firstn 3 results) = true ->
  lines (build_prompt query results)
  = [py "You are a helpful Netflix assistant. User asked: " ++ [dquote]
       ++ query ++ [dquote] ++ py ".";
     py "Based on the database, here are some matching titles:"; []]
    ++ map bullet_line (firstn 3 results)
    ++ [[]; py "Give a short natural reply to the user."].
Proof.
  intros Hne Hq Hl. rewrite (build_prompt_nonempty query Hne).
  unfold prompt_header.
  replace ((py "You are a helpful Netflix assistant. User asked: " ++ [dquote]
              ++ query ++ [dquote] ++ py "." ++ [newline]
              ++ py "Based on the database, here are some matching titles:"
              ++ [newline; newline])
           ++ List.concat (map bullet (firstn 3 results)) ++ prompt_footer)
    with ((py "You are a helpful Netflix assistant. User asked: " ++ [dquote]
             ++ query ++ [dquote] ++ py ".")
          ++ newline
             :: py "Based on the database, here are some matching titles:"
             ++ newline :: [] ++ newline
             :: List.concat (map bullet (firstn 3 results)) ++ prompt_footer)
    by (rewrite <- !app_assoc; reflexivity).
  rewrite lines_app_newline.
  2:{ rewrite !one_line_app, Hq. reflexivity. }
  rewrite lines_app_newline by reflexivity.
  rewrite (lines_app_newline [] _ eq_refl).
  rewrite (lines_bullets _ _ Hl).
  reflexivity.
Qed.

(** C9.  For an empty result set the message says that there were no
    matching results and quotes the query.  For more than three results the
    prompt is the heading, the bullets of the first three results in order,
    and the closing instruction; when the query and those rows hold no
    newline, the lines of the prompt that start a bullet are exactly three,
    "- **title** (release_year): description" for each of the three. *)
Theorem build_prompt_spec (query : str) (results : list entry) :
  (contains (py "no matching results") (build_prompt query []) = true
   /\ contains query (build_prompt query []) = true)
  /\ (3 < List.length results ->
      build_prompt query results
      = prompt_header query ++ List.concat (map bullet (firstn 3 results))
          ++ prompt_footer
      /\ List.length (firstn 3 results) = 3
      /\ forall e, bullet e = bullet_line e ++ [newline])
  /\ (3 < List.length results -> one_line query = true ->
      forallb entry_one_line (firstn 3 results) = true ->
      filter is_bullet (lines (build_prompt query results))
      = map bullet_line (firstn 3 results)
      /\ List.length (filter is_bullet (lines (build_prompt query results))) = 3).
Proof.
  split; [split|split].
  - apply contains_spec.
    exists (py "User asked: '" ++ query ++ py "'" ++ [newline] ++ py "There were ").
    exists (py " in the Netflix database.").
    unfold build_prompt. rewrite <- !app_assoc. reflexivity.
  - apply contains_spec. exists (py "User asked: '"). eexists. reflexivity.
  - intros Hlen.
    assert (Hne : results <> []) by (destruct results; [simpl in Hlen; lia | congruence]).
    split; [now apply build_prompt_nonempty|].
    split; [rewrite length_firstn; lia | apply bullet_is_line].
  - intros Hlen Hq Hl.
    assert (Hne : results <> []) by (destruct results; [simpl in Hlen; lia | congruence]).
    assert (E : filter is_bullet (lines (build_prompt query results))
                = map bullet_line (firstn 3 results)).
    { rewrite (lines_build_prompt query Hne Hq Hl).
      cbn [app filter]. 
      replace (is_bullet (py "You are a helpful Netflix assistant. User asked: "
                 ++ [dquote] ++ query ++ [dquote] ++ py ".")) with false
        by reflexivity.
      replace (is_bullet (py "Based on the database, here are some matching titles:"))
        with false by reflexivity.
      replace (is_bullet []) with false by reflexivity.
      rewrite filter_app. simpl. rewrite app_nil_r.
      apply filter_all. apply forallb_forall. intros x Hx.
      apply in_map_iff in Hx as [e [<- _]]. reflexivity. }
    split; [exact E|]. rewrite E, length_map, length_firstn. lia.
Qed.

Lemma build_prompt_spec_witness :
  filter is_bullet (lines (build_prompt (py "any film") catalog_6))
  = map bullet_line (firstn 3 catalog_6)
  /\ List.length (filter is_bullet (lines (build_prompt (py "any film") catalog_6))) = 3.
Proof.
  apply (proj2 (proj2 (build_prompt_spec (py "any film") catalog_6)));
    [simpl; lia | reflexivity | reflexivity].
Defined.

(* ================================================================== *)
(** * [filter_data] *)
(* ================================================================== *)

Lemma filter_filter_and {A} (p q : A -> bool) (l : list A) :
  filter q (filter p l) = filter (fun x => p x && q x) l.
Proof.
  induction l as [|x l IH]; [reflexivity|].
  simpl. destruct (p x); simpl; [destruct (q x)|]; now rewrite IH.
Qed.

Lemma filter_true {A} (l : list A) : filter (fun _ => true) l = l.
Proof. induction l as [|x l IH]; [reflexivity|]. simpl. now rewrite IH. Qed.




Lemma subseq_refl {A} (l : list A) : subseq l l.
Proof. induction l; [apply subseq_nil | now apply subseq_keep]. Qed.

Lemma subseq_filter {A} (p : A -> bool) (l : list A) : subseq (filter p l) l.
Proof.
  induction l as [|x l IH]; simpl; [apply subseq_nil|].
  destruct (p x); [now apply subseq_keep | now apply subseq_skip].
Qed.

Lemma subseq_trans {A} (l1 l2 l3 : list A) :
  subseq l1 l2 -> subseq l2 l3 -> subseq l1 l3.
Proof.
  intros H12 H23. revert l1 H12.
  induction H23 as [|x l2 l3 H IH|x l2 l3 H IH]; intros l1 H12.
  - exact H12.
  - apply subseq_skip. now apply IH.
  - inversion H12; subst; [apply subseq_skip | apply subseq_keep]; now apply IH.
Qed.

Section Filtering.

Variable re_engine : str -> option (str -> bool).
Variable df : list entry.

(** Each stage of [filter_data] keeps the rows that pass its predicate. *)
Lemma when_set_type (o : option str) (temp : list entry) :
  when_set o type_equals temp
  = Ok (filter (fun e => on_field o (fun v => Str.eqb (lower (type_ e)) (lower v)))
          temp).
Proof.
  unfold when_set, on_field, type_equals.
  destruct o as [v|]; [destruct (truthy v)|]; now rewrite ?filter_true.
Qed.

Lemma when_set_year (o : option str) (temp : list entry) :
  when_set o year_equals temp
  = Ok (filter (fun e => on_field o (fun v => Str.eqb (cell_str (release_year e)) v))
          temp).
Proof.
  unfold when_set, on_field, year_equals.
  destruct o as [v|]; [destruct (truthy v)|]; now rewrite ?filter_true.
Qed.



Lemma when_set_subseq (o : option str)
    (step : str -> list entry -> res (list entry)) (temp rows : list entry) :
  (forall v t r, step v t = Ok r -> subseq r t) ->
  when_set o step temp = Ok rows -> subseq rows temp.
Proof.
  intros Hstep. unfold when_set.
  destruct o as [v|]; [destruct (truthy v)|]; intros H;
    try (injection H as <-; apply subseq_refl).
  eapply Hstep; eauto.
Qed.

Lemma type_equals_subseq (v : str) (t r : list entry) :
  type_equals v t = Ok r -> subseq r t.
Proof. intros H; injection H as <-. apply subseq_filter. Qed.

Lemma year_equals_subseq (v : str) (t r : list entry) :
  year_equals v t = Ok r -> subseq r t.
Proof. intros H; injection H as <-. apply subseq_filter. Qed.

Lemma str_contains_subseq (col : entry -> str) (v : str) (t r : list entry) :
  str_contains re_engine col v t = Ok r -> subseq r t.
Proof.
  unfold str_contains.
  destruct (Regex.compile v); [|destruct (re_engine v); [|discriminate]];
    intros H; injection H as <-; apply subseq_filter.
Qed.

(** A stage on a pattern ends with a frame exactly when the pattern
    compiles. *)
Lemma when_set_contains_total (o : option str) (col : entry -> str)
    (temp : list entry) :
  compiles re_engine o = true
  <-> exists rows, when_set o (str_contains re_engine col) temp = Ok rows.
Proof.
  unfold compiles, when_set, on_field, str_contains.
  destruct o as [v|]; [destruct (truthy v)|]; try (split; eauto; fail).
  destruct (Regex.compile v); [split; eauto|].
  destruct (re_engine v); [split; eauto|].
  split; [discriminate | intros [rows H]; discriminate].
Qed.

(** C8.  With the four fields unconstrained [filter_data] returns the
    catalog as it is.  Whatever the filters, a result of [filter_data] is
    the catalog with some rows left out and the order kept; and
    [filter_data] has a result whenever the country and genre values that
    are active compile as patterns. *)
Theorem filter_data_subsequence :
  filter_data re_engine df no_filters = Ok df
  /\ (forall f rows, filter_data re_engine df f = Ok rows -> subseq rows df)
  /\ (forall f, compiles re_engine (f_country f) = true ->
                compiles re_engine (f_listed_in f) = true ->
                exists rows, filter_data re_engine df f = Ok rows).
Proof.
  split; [reflexivity|]. split.
  - intros f rows. unfold filter_data. cbn [bind_res].
    destruct (when_set (f_type f) type_equals df) as [t1|] eqn:E1; [|discriminate].
    cbn [bind_res].
    destruct (when_set (f_country f) (str_contains re_engine country) t1)
      as [t2|] eqn:E2; [|discriminate].
    cbn [bind_res].
    destruct (when_set (f_listed_in f) (str_contains re_engine listed_in) t2)
      as [t3|] eqn:E3; [|discriminate].
    cbn [bind_res].
    destruct (when_set (f_release_year f) year_equals t3) as [t4|] eqn:E4;
      [|discriminate].
    cbn [bind_res]. intros H; injection H as <-.
    apply when_set_subseq in E1; [|apply type_equals_subseq].
    apply when_set_subseq in E2; [|apply str_contains_subseq].
    apply when_set_subseq in E3; [|apply str_contains_subseq].
    apply when_set_subseq in E4; [|apply year_equals_subseq].
    eauto using subseq_trans.
  - intros f Hc Hg. unfold filter_data. cbn [bind_res].
    rewrite when_set_type. cbn [bind_res].
    destruct (proj1 (when_set_contains_total _ country
                (filter (fun e => on_field (f_type f)
                   (fun v => Str.eqb (lower (type_ e)) (lower v))) df)) Hc)
      as [t2 ->].
    cbn [bind_res].
    destruct (proj1 (when_set_contains_total _ listed_in t2) Hg) as [t3 ->].
    cbn [bind_res]. rewrite when_set_year. cbn [bind_res]. eauto.
Qed.

End Filtering.



Example filter_data_no_filters_AB :
  filter_data re_reject catalog_AB no_filters = Ok [entry_A; entry_B].
Proof. reflexivity. Qed.

(* ================================================================== *)
(** * [chat]: when the fallback runs *)
(* ================================================================== *)

Section Chat.

Variable nlp : str -> doc.
Variable re_engine : str -> option (str -> bool).
Variable vec : Type.
Variable encode : list str -> list vec.
Variable cosine_similarity : list vec -> list vec -> list (list Q).
Variable argsort : list Q -> list nat.
Variable subprocess_run : list str -> run_result.
Variable df : list entry.

Local Notation fallback := (semantic_fallback encode cosine_similarity argsort df).
Local Notation filtered_by := (filter_data re_engine df).
Local Notation retrieve' :=
  (retrieve nlp re_engine encode cosine_similarity argsort df).
Local Notation chat' :=
  (chat nlp re_engine encode cosine_similarity argsort subprocess_run df).

(** The fallback starts by encoding the query, however it ends. *)
Lemma semantic_fallback_trace (query : str) :
  trace (fallback query) = [EvEncode [query]; EvCosine].
Proof.
  unfold semantic_fallback, trace, bind, emit, lift.
  destruct (cosine_checked _ _ _) as [m|e]; [|reflexivity].
  destruct (row0 m) as [sims|e]; [|reflexivity].
  destruct (iloc _ _); reflexivity.
Qed.

Lemma retrieve_filtered (query : str) (row : entry) (rows : list entry) :
  filtered_by (extract_filters nlp query) = Ok (row :: rows) ->
  retrieve' query = ([], Ok (row :: rows)).
Proof. unfold retrieve. intros ->. reflexivity. Qed.

Lemma retrieve_empty (query : str) :
  filtered_by (extract_filters nlp query) = Ok [] ->
  retrieve' query = fallback query.
Proof.
  unfold retrieve. intros ->. unfold bind, lift.
  destruct (fallback query) as [t r]. reflexivity.
Qed.

Lemma retrieve_error (query : str) (e : error) :
  filtered_by (extract_filters nlp query) = Err e ->
  retrieve' query = ([], Err e).
Proof. unfold retrieve. intros ->. reflexivity. Qed.

Lemma chat_trace (query : str) :
  trace (chat' query)
  = trace (retrieve' query)
      ++ match outcome (retrieve' query) with
         | Ok rows => [EvRun (ollama_argv (build_prompt query rows))]
         | Err _ => []
         end.
Proof.
  unfold chat, trace, outcome, bind.
  destruct (retrieve' query) as [t [rows|e]]; simpl.
  - reflexivity.
  - now rewrite app_nil_r.
Qed.

(** C6.  [chat] runs the semantic fallback, and encodes the query, if and
    only if [filter_data] returned an empty result.  When the result is not
    empty the prompt is built from those rows: the only call [chat] makes is
    the generator call on [build_prompt query rows]. *)
Theorem chat_fallback_iff_empty (query : str) :
  (existsb encodes (trace (chat' query)) = true
   <-> filtered_by (extract_filters nlp query) = Ok [])
  /\ (filtered_by (extract_filters nlp query) = Ok [] ->
      retrieve' query = fallback query)
  /\ (forall rows,
        filtered_by (extract_filters nlp query) = Ok rows -> rows <> [] ->
        retrieve' query = ([], Ok rows)
        /\ chat' query
           = ([EvRun (ollama_argv (build_prompt query rows))],
              Ok (mistral_reply
                    (subprocess_run (ollama_argv (build_prompt query rows)))
                    (build_prompt query rows)))).
Proof.
  split; [|split].
  - rewrite chat_trace.
    destruct (filtered_by (extract_filters nlp query)) as [[|row rows]|e] eqn:E.
    + rewrite (retrieve_empty _ E), semantic_fallback_trace. split; reflexivity.
    + rewrite (retrieve_filtered _ E). simpl. split; discriminate.
    + rewrite (retrieve_error _ E). simpl. split; discriminate.
  - apply retrieve_empty.
  - intros [|row rows] E Hne; [congruence|].
    split; [now apply retrieve_filtered|].
    unfold chat. rewrite (retrieve_filtered _ E). reflexivity.
Qed.

End Chat.

Example chat_filtered_AB :
  chat nlp_words re_reject encode_length cosine_of_row argsort_insertion
    run_echo catalog_AB (py "Show me a 2015 show")
  = ([EvRun (ollama_argv (build_prompt (py "Show me a 2015 show") [entry_B]))],
     Ok (build_prompt (py "Show me a 2015 show") [entry_B])).
Proof. reflexivity. Qed.

(* ================================================================== *)
(** * Determinism of the retrieval pipeline *)
(* ================================================================== *)

Lemma get_app (h ext : heap) (r : ref) (rows : list entry) :
  get h r = Some rows -> get (h ++ ext) r = Some rows.
Proof.
  unfold get. intros H. rewrite nth_error_app1; [exact H|].
  apply nth_error_Some. congruence.
Qed.

Lemma get_new (h : heap) (rows : list entry) :
  get (h ++ [rows]) (List.length h) = Some rows.
Proof.
  unfold get. rewrite nth_error_app2 by lia. now rewrite Nat.sub_diag.
Qed.

Lemma yields_ret (temp : ref) (h : heap) (rows : list entry) :
  get h temp = Some rows -> yields (sret temp) h (Ok rows).
Proof.
  intros H. exists [], (Ok temp). rewrite app_nil_r. now split.
Qed.

Lemma yields_step (step : list entry -> res (list entry)) (temp : ref)
    (h : heap) (rows : list entry) :
  get h temp = Some rows -> yields (step_st step temp) h (step rows).
Proof.
  intros H. unfold yields, step_st, sbind, read, slift, new. rewrite H.
  destruct (step rows) as [rows'|e].
  - exists [rows'], (Ok (List.length h)). split; [reflexivity | apply get_new].
  - exists [], (Err e). rewrite app_nil_r. now split.
Qed.

Lemma yields_when_set (o : option str)
    (step : str -> list entry -> res (list entry)) (temp : ref) (h : heap)
    (rows : list entry) :
  get h temp = Some rows ->
  yields (when_set_st o step temp) h (when_set o step rows).
Proof.
  intros H. unfold when_set_st, when_set.
  destruct o as [v|]; [destruct (truthy v)|];
    auto using yields_step, yields_ret.
Qed.

(** A stage after a stage: the second starts in the store the first left. *)
Lemma yields_bind (m : St ref) (k : ref -> St ref) (h : heap)
    (expected : res (list entry))
    (then_expected : list entry -> res (list entry)) :
  yields m h expected ->
  (forall ext r rows, get (h ++ ext) r = Some rows ->
                      yields (k r) (h ++ ext) (then_expected rows)) ->
  yields (sbind m k) h (bind_res expected then_expected).
Proof.
  intros (ext & o & E & Ho) Hk. unfold yields, sbind. rewrite E.
  destruct o as [r|e], expected as [rows|e']; try contradiction.
  - destruct (Hk ext r rows Ho) as (ext' & o' & E' & Ho').
    exists (ext ++ ext'), o'. rewrite app_assoc. split; [exact E' | exact Ho'].
  - exists ext, (Err e). now split.
Qed.

(** [filter_data] on the store computes what [filter_data] computes of the
    catalog behind [df], in a new frame, and leaves every frame it found. *)
Lemma filter_data_st_yields (re_engine : str -> option (str -> bool))
    (df : ref) (f : filters) (h : heap) (catalog : list entry) :
  get h df = Some catalog ->
  yields (filter_data_st re_engine df f) h (filter_data re_engine catalog f).
Proof.
  intros H. unfold filter_data_st, filter_data.
  apply yields_bind; [now apply (yields_step Ok)|]. intros e1 r1 t1 H1.
  apply yields_bind; [now apply yields_when_set|]. intros e2 r2 t2 H2.
  apply yields_bind; [now apply yields_when_set|]. intros e3 r3 t3 H3.
  apply yields_bind; [now apply yields_when_set|]. intros e4 r4 t4 H4.
  apply yields_bind; [now apply yields_when_set|]. intros e5 r5 t5 H5.
  now apply yields_ret.
Qed.

Lemma yields_ok (m : St ref) (h h1 : heap) (expected : res (list entry))
    (r : ref) :
  yields m h expected -> m h = Some (Ok r, h1) ->
  exists ext rows, h1 = h ++ ext /\ expected = Ok rows /\ get h1 r = Some rows.
Proof.
  intros (ext & o & E & Ho) H. rewrite E in H. injection H as -> <-.
  destruct expected as [rows|e]; [|contradiction]. now exists ext, rows.
Qed.

Section Determinism.

Variable nlp_answers : str -> doc -> Prop.
Variable re_engine : str -> option (str -> bool).
Variable vec : Type.
Variable encode_answers : list str -> list vec -> Prop.
Variable cosine_similarity : list vec -> list vec -> list (list Q).
Variable argsort : list Q -> list nat.
Variable df : ref.
Variable embeddings : list vec.
Variable catalog : list entry.

Hypothesis nlp_deterministic : deterministic nlp_answers.
Hypothesis encode_deterministic : deterministic encode_answers.

Local Notation run :=
  (pipeline_run nlp_answers re_engine encode_answers cosine_similarity argsort
     df embeddings).

(** What a run is made of: the catalog behind [df] decides the rows, and
    stays behind [df]. *)
Lemma run_spec (q : str) (h h1 : heap) (f : filters) (r : ref) (prompt : str) :
  get h df = Some catalog -> run q h f r prompt h1 ->
  exists d rows,
    nlp_answers (lower q) d /\ f = extract_filters_doc d q
    /\ get h1 r = Some rows /\ prompt = build_prompt q rows
    /\ get h1 df = Some catalog
    /\ ((filter_data re_engine catalog f = Ok rows /\ rows <> [])
        \/ (filter_data re_engine catalog f = Ok []
            /\ exists query_embed m sims,
                 encode_answers [q] query_embed
                 /\ cosine_checked cosine_similarity query_embed embeddings = Ok m
                 /\ row0 m = Ok sims
                 /\ iloc catalog (top_indices argsort sims) = Ok rows)).
Proof.
  intros Hdf R.
  destruct R as [d r h1 rows Hd Hf Hr Hne
                | d r h1 qe m sims r2 h2 rows Hd Hf Hr He Hc Hs Hi Hr2].
  - destruct (@yields_ok _ _ _ _ _
                (@filter_data_st_yields re_engine df _ h catalog Hdf) Hf)
      as (ext & rows0 & -> & E & G).
    assert (rows0 = rows) by congruence. subst rows0.
    exists d, rows. repeat split; auto using get_app.
  - destruct (@yields_ok _ _ _ _ _
                (@filter_data_st_yields re_engine df _ h catalog Hdf) Hf)
      as (ext & rows0 & -> & E & G).
    assert (rows0 = []) by congruence. subst rows0.
    pose proof (@get_app h ext df catalog Hdf) as Hdf1.
    destruct (@yields_ok _ _ _ _ _ (@yields_step _ df _ _ Hdf1) Hi)
      as (ext2 & rows2 & -> & E2 & G2).
    assert (rows2 = rows) by congruence. subst rows2.
    exists d, rows. repeat split; auto using get_app.
    right. split; [exact E|]. now exists qe, m, sims.
Qed.

(** C10.  With a fixed catalog behind [df] and fixed embeddings, and NLP
    and embedding collaborators that answer the same input alike, two runs
    of the pipeline on one query, the second started in the store the first
    left or in any other store that holds the catalog, end with the same
    filters, result sets of the same rows and the same prompt; and each
    leaves the catalog behind [df] as it found it. *)
Theorem pipeline_deterministic (q : str) (h h' h1 h2 : heap)
    (f1 f2 : filters) (r1 r2 : ref) (prompt1 prompt2 : str) :
  get h df = Some catalog -> get h' df = Some catalog ->
  run q h f1 r1 prompt1 h1 -> run q h' f2 r2 prompt2 h2 ->
  f1 = f2 /\ prompt1 = prompt2
  /\ (exists rows, get h1 r1 = Some rows /\ get h2 r2 = Some rows)
  /\ get h1 df = Some catalog /\ get h2 df = Some catalog.
Proof.
  intros Hdf Hdf' R1 R2.
  destruct (run_spec Hdf R1) as (d1 & rows1 & Hd1 & -> & G1 & -> & K1 & B1).
  destruct (run_spec Hdf' R2) as (d2 & rows2 & Hd2 & -> & G2 & -> & K2 & B2).
  assert (d1 = d2) by (eapply nlp_deterministic; eauto). subst d2.
  assert (rows1 = rows2).
  { destruct B1 as [[F1 N1] | [F1 (qe1 & m1 & s1 & He1 & Hc1 & Hs1 & Hi1)]];
      destruct B2 as [[F2 N2] | [F2 (qe2 & m2 & s2 & He2 & Hc2 & Hs2 & Hi2)]].
    - congruence.
    - exfalso. apply N1. congruence.
    - exfalso. apply N2. congruence.
    - assert (qe1 = qe2) by (eapply encode_deterministic; eauto). subst qe2.
      assert (m1 = m2) by congruence. subst m2.
      assert (s1 = s2) by congruence. subst s2. congruence. }
  subst rows2. repeat split; auto. now exists rows1.
Qed.

End Determinism.

Lemma graph_deterministic {A B} (f : A -> B) : deterministic (graph f).
Proof. intros a b1 b2 H1 H2. unfold graph in *. congruence. Qed.

(** What [pipeline_st] computes is a run of the pipeline over the
    collaborators read as relations. *)
Lemma pipeline_st_is_a_run (nlp : str -> doc)
    (re_engine : str -> option (str -> bool)) (vec : Type)
    (encode : list str -> list vec)
    (cosine_similarity : list vec -> list vec -> list (list Q))
    (argsort : list Q -> list nat) (df : ref) (embeddings : list vec)
    (q : str) (h h1 : heap) (f : filters) (r : ref) (prompt : str) :
  pipeline_st nlp re_engine encode cosine_similarity argsort df embeddings q h
  = Some (Ok (f, r, prompt), h1) ->
  pipeline_run (graph nlp) re_engine (graph encode) cosine_similarity argsort
    df embeddings q h f r prompt h1.
Proof.
  unfold pipeline_st, extract_filters, sbind, read, slift, sret.
  destruct (filter_data_st re_engine df _ h) as [[[r0|e] h0]|] eqn:Ef;
    try discriminate.
  destruct (get h0 r0) as [[|row rows]|] eqn:Er; try discriminate.
  - destruct (cosine_checked _ _ _) as [m|] eqn:Ec; try discriminate.
    destruct (row0 m) as [sims|] eqn:Es; try discriminate.
    destruct (iloc_st df _ h0) as [[[r2|e] h2]|] eqn:Ei; try discriminate.
    destruct (get h2 r2) as [rows2|] eqn:Er2; try discriminate.
    intros H; injection H as <- <- <- <-.
    eapply run_fallback; eauto; reflexivity.
  - intros H; injection H as <- <- <- <-.
    apply (@run_filtered (graph nlp) re_engine vec (graph encode)
             cosine_similarity argsort df embeddings q h (nlp (lower q))
             r0 h0 (row :: rows) eq_refl Ef Er).
    discriminate.
Qed.

(** Two runs on "Find a 1999 comedy", the second in the store the first
    left: the result sets are the frames 4 and 8, two objects of the same
    rows. *)
Lemma pipeline_deterministic_witness :
  let q := py "Find a 1999 comedy" in
  let h0 := [catalog_AB] in
  let h1 := h0 ++ [catalog_AB; []; []; [entry_B; entry_A]] in
  let h2 := h1 ++ [catalog_AB; []; []; [entry_B; entry_A]] in
  extract_filters nlp_words q = extract_filters nlp_words q
  /\ build_prompt q [entry_B; entry_A] = build_prompt q [entry_B; entry_A]
  /\ (exists rows, get h1 4 = Some rows /\ get h2 8 = Some rows)
  /\ get h1 0 = Some catalog_AB /\ get h2 0 = Some catalog_AB.
Proof.
  intros q h0 h1 h2.
  apply (@pipeline_deterministic (graph nlp_words) re_reject Q
           (graph encode_length) cosine_of_row argsort_insertion 0
           (embeddings encode_length catalog_AB) catalog_AB
           (@graph_deterministic _ _ nlp_words)
           (@graph_deterministic _ _ encode_length)
           q h0 h1 h1 h2);
    try reflexivity;
    apply (@pipeline_st_is_a_run nlp_words re_reject Q encode_length
             cosine_of_row argsort_insertion 0
             (embeddings encode_length catalog_AB));
    reflexivity.
Defined.

(** The contrast: a filter that drops rows of the global frame in place
    leaves another catalog behind [df], so a second run would not see what
    the first saw. *)
Example drop_in_place_changes_the_catalog :
  drop_in_place (fun e => Str.eqb (lower (type_ e)) (py "movie")) 0 [catalog_AB]
  = Some (Ok 0, [[entry_A]]).
Proof. reflexivity. Qed.

(* ================================================================== *)
(** * Sorted lists of indices *)
(* ================================================================== *)

Lemma Sorted_app_inv {A} (R : A -> A -> Prop) (l1 l2 : list A) :
  StronglySorted R (l1 ++ l2) ->
  StronglySorted R l1 /\ StronglySorted R l2
  /\ forall x y, In x l1 -> In y l2 -> R x y.
Proof.
  induction l1 as [|a l1 IH]; simpl; intros H.
  - repeat split; [constructor | exact H | intros x y []].
  - apply StronglySorted_inv in H as [Hs Hf].
    destruct (IH Hs) as (H1 & H2 & H12).
    rewrite Forall_app in Hf. destruct Hf as [Hf1 Hf2].
    repeat split; auto.
    + now constructor.
    + intros x y [<-|Hx] Hy; [|now apply H12].
      rewrite Forall_forall in Hf2. now apply Hf2.
Qed.

Lemma Sorted_app {A} (R : A -> A -> Prop) (l1 l2 : list A) :
  StronglySorted R l1 -> StronglySorted R l2 ->
  (forall x y, In x l1 -> In y l2 -> R x y) ->
  StronglySorted R (l1 ++ l2).
Proof.
  induction l1 as [|a l1 IH]; simpl; intros H1 H2 H12; [exact H2|].
  apply StronglySorted_inv in H1 as [Hs Hf].
  constructor.
  - apply IH; auto.
  - rewrite Forall_app. split; [exact Hf|].
    rewrite Forall_forall. intros y Hy. apply H12; auto.
Qed.

Lemma Sorted_rev {A} (R : A -> A -> Prop) (l : list A) :
  StronglySorted R l -> StronglySorted (fun a b => R b a) (rev l).
Proof.
  induction l as [|a l IH]; simpl; intros H; [constructor|].
  apply StronglySorted_inv in H as [Hs Hf].
  apply Sorted_app.
  - now apply IH.
  - repeat constructor.
  - intros x y Hx [<-|[]]. rewrite Forall_forall in Hf.
    apply Hf. now apply in_rev.
Qed.

Lemma Sorted_impl {A} (R R' : A -> A -> Prop) (l : list A) :
  (forall a b, R a b -> R' a b) -> StronglySorted R l -> StronglySorted R' l.
Proof.
  intros HR. induction 1 as [|a l Hs IH Hf]; constructor; auto.
  eapply Forall_impl; [|exact Hf]. auto.
Qed.

Lemma Sorted_both {A} (R R' : A -> A -> Prop) (l : list A) :
  StronglySorted R l -> StronglySorted R' l ->
  StronglySorted (fun a b => R a b /\ R' a b) l.
Proof.
  induction l as [|a l IH]; intros H H'; [constructor|].
  apply StronglySorted_inv in H as [Hs Hf].
  apply StronglySorted_inv in H' as [Hs' Hf'].
  constructor; [now apply IH|].
  rewrite Forall_forall in *. intros x Hx. split; auto.
Qed.

Lemma Sorted_before {A} (R : A -> A -> Prop) (l : list A) (x y : A) :
  StronglySorted R l -> before x y l -> R x y.
Proof.
  intros H (l1 & l2 & l3 & ->).
  apply Sorted_app_inv in H as (_ & H & _).
  apply StronglySorted_inv in H as [_ Hf].
  rewrite Forall_forall in Hf. apply Hf.
  apply in_or_app. right. now left.
Qed.

(** Two different members of a list stand one before the other. *)
Lemma before_or_after {A} (x y : A) (l : list A) :
  In x l -> In y l -> x <> y -> before x y l \/ before y x l.
Proof.
  intros Hx Hy Hne.
  apply in_split in Hx as (l1 & l2 & ->).
  apply in_app_or in Hy as [Hy | [Hy | Hy]]; [| congruence |].
  - right. apply in_split in Hy as (a & b & ->).
    exists a, b, l2. now rewrite <- app_assoc.
  - left. apply in_split in Hy as (a & b & ->).
    now exists l1, a, b.
Qed.

Lemma before_rev {A} (x y : A) (l : list A) :
  before x y (rev l) -> before y x l.
Proof.
  intros (l1 & l2 & l3 & E).
  apply (f_equal (@rev A)) in E. rewrite rev_involutive in E. subst l.
  exists (rev l3), (rev l2), (rev l1).
  rewrite rev_app_distr. cbn [rev]. rewrite rev_app_distr. cbn [rev].
  now rewrite <- !app_assoc.
Qed.

Lemma before_app_r {A} (x y : A) (p s : list A) :
  before x y s -> before x y (p ++ s).
Proof.
  intros (l1 & l2 & l3 & ->). exists (p ++ l1), l2, l3.
  now rewrite <- app_assoc.
Qed.

(** A list without repetition splits at a member in one way only. *)
Lemma NoDup_split_unique {A} (x : A) (a b a' b' : list A) :
  NoDup (a ++ x :: b) -> a ++ x :: b = a' ++ x :: b' -> a = a' /\ b = b'.
Proof.
  revert a'; induction a as [|u a IH]; intros [|c a'] Hnd E; cbn [app] in *.
  - injection E as ->. now split.
  - injection E as <- ->. apply NoDup_cons_iff in Hnd as [Hx _].
    exfalso. apply Hx, in_elt.
  - injection E as -> <-. apply NoDup_cons_iff in Hnd as [Hx _].
    exfalso. apply Hx, in_elt.
  - injection E as -> E. apply NoDup_cons_iff in Hnd as [_ Hnd].
    destruct (IH a' Hnd E) as [-> ->]. now split.
Qed.

(** In a list without repetition no two members stand each before the
    other. *)
Lemma before_antisym {A} (x y : A) (l : list A) :
  NoDup l -> before x y l -> before y x l -> False.
Proof.
  intros Hnd (l1 & l2 & l3 & E1) (m1 & m2 & m3 & E2).
  subst l.
  replace (m1 ++ y :: m2 ++ x :: m3) with ((m1 ++ y :: m2) ++ x :: m3) in E2
    by now rewrite <- app_assoc.
  destruct (NoDup_split_unique _ _ _ _ _ Hnd E2) as [-> _].
  rewrite <- app_assoc in Hnd. cbn [app] in Hnd.
  apply NoDup_remove_2 in Hnd. apply Hnd.
  apply in_or_app. right. apply in_or_app. right. right. apply in_elt.
Qed.


Lemma last_n_split {A} (k : nat) (l : list A) :
  l = firstn (List.length l - k) l ++ last_n k l.
Proof. unfold last_n. now rewrite firstn_skipn. Qed.

(** [iloc] succeeds on positions inside the frame, and returns the rows at
    those positions. *)
Lemma iloc_in_range (frame : list entry) (idx : list nat) :
  (forall i, In i idx -> i < List.length frame) ->
  exists rows, iloc frame idx = Ok rows
               /\ Forall2 (fun i r => nth_error frame i = Some r) idx rows.
Proof.
  induction idx as [|i idx IH]; intros H.
  - exists []. split; [reflexivity | constructor].
  - destruct IH as (rows & E & F); [intros; apply H; now right|].
    assert (Hi : i < List.length frame) by (apply H; now left).
    apply nth_error_Some in Hi.
    destruct (nth_error frame i) as [r|] eqn:En; [|congruence].
    exists (r :: rows). simpl. rewrite En, E. split; [reflexivity|].
    now constructor.
Qed.

(* ================================================================== *)
(** * The semantic fallback: how many rows, and in which order *)
(* ================================================================== *)

Section Ranking.

Variable vec : Type.
Variable encode : list str -> list vec.
Variable cosine_similarity : list vec -> list vec -> list (list Q).
Variable argsort : list Q -> list nat.
Variable df : list entry.

Hypothesis argsort_sorts : sorts argsort.

Local Notation fallback := (semantic_fallback encode cosine_similarity argsort df).
Local Notation top := (top_indices argsort).

Lemma argsort_in (sims : list Q) (i : nat) :
  In i (argsort sims) <-> i < List.length sims.
Proof.
  destruct (argsort_sorts sims) as [Hp _]. split; intros H.
  - apply (Permutation_in _ Hp) in H. apply in_seq in H. lia.
  - apply (Permutation_in _ (Permutation_sym Hp)). apply in_seq. lia.
Qed.

Lemma top_in_last (sims : list Q) (i : nat) :
  In i (top sims) <-> In i (last_n 5 (argsort sims)).
Proof. unfold top_indices. symmetry. apply in_rev. Qed.

Lemma top_in_range (sims : list Q) (i : nat) :
  In i (top sims) -> i < List.length sims.
Proof.
  rewrite top_in_last. intros H. apply argsort_in.
  rewrite (last_n_split 5 (argsort sims)). apply in_or_app. now right.
Qed.





Hypothesis encode_each : encodes_each encode.
Hypothesis cosine_each : scores_each cosine_similarity.

(** On a catalog with a row the similarity is one row of scores, one score
    per row of the catalog, and scikit-learn's check passes. *)
Lemma cosine_row (q : str) :
  df <> [] ->
  exists sims,
    cosine_checked cosine_similarity (encode [q]) (embeddings encode df)
    = Ok [sims]
    /\ cosine_similarity (encode [q]) (embeddings encode df) = [sims]
    /\ List.length sims = List.length df.
Proof.
  intros Hne.
  assert (Hx : encode [q] <> []).
  { intros E. apply (f_equal (@List.length vec)) in E.
    rewrite encode_each in E. discriminate. }
  assert (Ly : List.length (embeddings encode df) = List.length df).
  { unfold embeddings, texts. now rewrite encode_each, length_map. }
  assert (Hy : embeddings encode df <> []).
  { intros E. rewrite E in Ly. destruct df; [congruence | discriminate]. }
  destruct (cosine_each Hx Hy) as [Lm Fm].
  rewrite encode_each in Lm.
  assert (Ec : cosine_checked cosine_similarity (encode [q])
                 (embeddings encode df)
               = Ok (cosine_similarity (encode [q]) (embeddings encode df))).
  { unfold cosine_checked.
    destruct (encode [q]); [congruence|].
    destruct (embeddings encode df); [congruence | reflexivity]. }
  rewrite Ec.
  destruct (cosine_similarity (encode [q]) (embeddings encode df))
    as [|sims [|r m]]; try discriminate.
  exists sims. repeat split.
  apply Forall_inv in Fm. now rewrite Fm.
Qed.

Lemma semantic_fallback_rows (query : str) :
  df <> [] ->
  exists sims rows,
    cosine_similarity (encode [query]) (embeddings encode df) = [sims]
    /\ List.length sims = List.length df
    /\ outcome (fallback query) = Ok rows
    /\ Forall2 (fun i r => nth_error df i = Some r) (top sims) rows.
Proof.
  intros Hne. destruct (cosine_row query Hne) as (sims & Ec & Hc & Hl).
  destruct (iloc_in_range df (top sims)) as (rows & E & F).
  { intros i Hi. rewrite <- Hl. now apply top_in_range. }
  exists sims, rows. repeat split; auto.
  unfold semantic_fallback, outcome, bind, emit, lift.
  rewrite Ec. cbn [row0]. rewrite E. reflexivity.
Qed.


(** The returned indices stand in the reverse of the order [argsort] gave
    them. *)
Lemma top_reverses_argsort (sims : list Q) (i j : nat) :
  In i (top sims) -> In j (top sims) -> i <> j ->
  (before i j (top sims) <-> before j i (argsort sims)).
Proof.
  intros Hi Hj Hne.
  assert (Hnd : NoDup (argsort sims)).
  { destruct (argsort_sorts sims) as [Hp _].
    apply (Permutation_NoDup (Permutation_sym Hp)), seq_NoDup. }
  assert (Hfwd : forall x y, before x y (top sims) -> before y x (argsort sims)).
  { intros x y H. unfold top_indices in H. apply before_rev in H.
    rewrite (last_n_split 5 (argsort sims)). now apply before_app_r. }
  split; [apply Hfwd|]. intros H.
  destruct (@before_or_after _ i j (top sims) Hi Hj Hne) as [Hb|Hb];
    [exact Hb|].
  exfalso. apply Hfwd in Hb. exact (before_antisym Hnd H Hb).
Qed.

(** C1 as the code has it.  The code takes the last five indices of
    [np.argsort(sims)] and reverses them; it has no tie-break of its own.
    Two returned rows of equal similarity therefore come out in the reverse
    of the order in which [argsort] listed them, whatever their catalog
    indices are. *)
Theorem semantic_fallback_ties (query : str) :
  df <> [] ->
  exists sims rows,
    cosine_similarity (encode [query]) (embeddings encode df) = [sims]
    /\ outcome (fallback query) = Ok rows
    /\ Forall2 (fun i r => nth_error df i = Some r) (top sims) rows
    /\ ties_as_argsort_reversed sims (argsort sims) (top sims).
Proof.
  intros Hne.
  destruct (semantic_fallback_rows query Hne) as (sims & rows & Hc & Hl & E & F).
  exists sims, rows. split; [exact Hc|]. split; [exact E|]. split; [exact F|].
  intros i j Hi Hj Hij _. now apply top_reverses_argsort.
Qed.

End Ranking.

(* ================================================================== *)
(** * An insertion sort sorts *)
(* ================================================================== *)

Lemma Qltb_true (a b : Q) : Qltb a b = true -> (a < b)%Q.
Proof.
  unfold Qltb. intros H. apply negb_true_iff in H.
  apply Qnot_le_lt. intros Hle. apply Qle_bool_iff in Hle. congruence.
Qed.

Lemma Qltb_false (a b : Q) : Qltb a b = false -> (b <= a)%Q.
Proof.
  unfold Qltb. intros H. apply negb_false_iff in H. now apply Qle_bool_iff.
Qed.

Lemma insert_back_perm (v : list Q) (vi : nat) (p : list nat) :
  Permutation (insert_back v vi p) (vi :: p).
Proof.
  induction p as [|k p IH]; simpl; [reflexivity|].
  destruct (Qltb (key v vi) (key v k)); [|reflexivity].
  rewrite IH. apply perm_swap.
Qed.

Lemma insert_back_sorted (v : list Q) (vi : nat) (p : list nat) :
  StronglySorted (later_first v) p -> (forall k, In k p -> k < vi) ->
  StronglySorted (later_first v) (insert_back v vi p).
Proof.
  induction p as [|k p IH]; intros Hs Hlt; simpl.
  - repeat constructor.
  - apply StronglySorted_inv in Hs as [Hs Hf].
    destruct (Qltb (key v vi) (key v k)) eqn:E.
    + apply Qltb_true in E. constructor.
      * apply IH; [exact Hs | intros; apply Hlt; now right].
      * rewrite Forall_forall in *. intros x Hx.
        apply (Permutation_in _ (insert_back_perm v vi p)) in Hx.
        destruct Hx as [<-|Hx]; [|now apply Hf].
        split.
        -- now apply Qlt_le_weak.
        -- intros Heq. exfalso. rewrite Heq in E. now apply Qlt_irrefl in E.
    + apply Qltb_false in E. constructor.
      * now constructor.
      * rewrite Forall_forall in *. intros x Hx. split.
        -- destruct Hx as [<-|Hx]; [exact E|].
           destruct (Hf x Hx) as [Hd _]. unfold descending in *.
           now apply Qle_trans with (key v k).
        -- intros _. now apply Hlt.
Qed.

Lemma insertion_prefix (v : list Q) (m : nat) :
  Permutation
    (fold_left (fun p vi => insert_back v vi p) (seq 0 m) []) (seq 0 m)
  /\ StronglySorted (later_first v)
       (fold_left (fun p vi => insert_back v vi p) (seq 0 m) []).
Proof.
  induction m as [|m [Hp Hs]]; [split; [reflexivity | constructor]|].
  rewrite seq_S, fold_left_app. cbn [fold_left Nat.add]. split.
  - rewrite insert_back_perm, Hp. apply Permutation_cons_append.
  - apply insert_back_sorted; [exact Hs|].
    intros k Hk. apply (Permutation_in _ Hp) in Hk. apply in_seq in Hk. lia.
Qed.

Lemma argsort_insertion_sorts : sorts argsort_insertion.
Proof.
  intros v. unfold argsort_insertion.
  destruct (insertion_prefix v (List.length v)) as [Hp Hs]. split.
  - now rewrite <- Permutation_rev.
  - apply Sorted_rev in Hs. eapply Sorted_impl; [|exact Hs].
    intros a b [H _]. exact H.
Qed.

Lemma encode_length_each : encodes_each encode_length.
Proof. intros l. apply length_map. Qed.

Lemma cosine_of_row_each : scores_each cosine_of_row.
Proof.
  intros X Y _ _. unfold cosine_of_row. split; [apply length_map|].
  apply Forall_forall. intros r Hr. apply in_map_iff in Hr as (_ & <- & _).
  reflexivity.
Qed.



Example semantic_fallback_catalog_6 :
  top_indices argsort_insertion (encode_length (texts catalog_6)) = [2; 4; 0; 5; 3].
Proof. reflexivity. Qed.

(** Entries A and B have texts of one length, so the stub scores them
    alike: [argsort] lists A then B, and the fallback returns B then A. *)
Lemma semantic_fallback_ties_witness :
  exists sims rows,
    cosine_of_row (encode_length [py "Find a 1999 comedy"])
      (embeddings encode_length catalog_AB) = [sims]
    /\ outcome (semantic_fallback encode_length cosine_of_row argsort_insertion
                  catalog_AB (py "Find a 1999 comedy")) = Ok rows
    /\ Forall2 (fun i r => nth_error catalog_AB i = Some r)
         (top_indices argsort_insertion sims) rows
    /\ ties_as_argsort_reversed sims (argsort_insertion sims)
         (top_indices argsort_insertion sims).
Proof.
  apply (@semantic_fallback_ties Q encode_length cosine_of_row
           argsort_insertion catalog_AB argsort_insertion_sorts
           encode_length_each cosine_of_row_each (py "Find a 1999 comedy")).
  discriminate.
Defined.

(** C1 as stated fails.  Entries A (index 0) and B (index 1) score alike, and
    the fallback returns B before A. *)
Lemma semantic_fallback_ties_favour_the_higher_index :
  outcome (semantic_fallback encode_length cosine_of_row argsort_insertion
             catalog_AB (py "Find a 1999 comedy")) = Ok [entry_B; entry_A]
  /\ encode_length (texts catalog_AB) = [14 # 1; 14 # 1]%Q
  /\ top_indices argsort_insertion [14 # 1; 14 # 1]%Q = [1; 0]
  /\ ~ lower_index_first [14 # 1; 14 # 1]%Q [1; 0].
Proof.
  repeat split.
  intros H.
  destruct (H 0 1) as (l1 & l2 & l3 & E);
    [now right; left | now left | reflexivity | lia |].
  destruct l1 as [|a [|b l1]]; simpl in E.
  - discriminate.
  - injection E as _ E. destruct l2; discriminate.
  - injection E as _ _ E. destruct l1; discriminate.
Qed.

(* ================================================================== *)
(** * [extract_filters]: the country and the genre *)
(* ================================================================== *)

Ltac by_ascii c := destruct c as [[] [] [] [] [] [] [] []]; reflexivity.

Lemma lower_char_idem (c : ascii) : lower_char (lower_char c) = lower_char c.
Proof. by_ascii c. Qed.

Lemma upper_lower_char (c : ascii) : upper_char (lower_char c) = upper_char c.
Proof. by_ascii c. Qed.

Lemma is_cased_lower_char (c : ascii) : is_cased (lower_char c) = is_cased c.
Proof. by_ascii c. Qed.

Lemma is_space_lower_char (c : ascii) : is_space (lower_char c) = is_space c.
Proof. by_ascii c. Qed.

Lemma is_upper_lower_char (c : ascii) : is_upper (lower_char c) = false.
Proof. by_ascii c. Qed.

Lemma is_special_lower_char (c : ascii) :
  Regex.is_special (lower_char c) = Regex.is_special c.
Proof. by_ascii c. Qed.

Lemma is_dot_lower_char (c : ascii) :
  Ascii.eqb (lower_char c) "." = Ascii.eqb c ".".
Proof. by_ascii c. Qed.

Lemma is_special_upper_char (c : ascii) :
  Regex.is_special (upper_char c) = Regex.is_special c.
Proof. by_ascii c. Qed.

Lemma lower_idem (s : str) : lower (lower s) = lower s.
Proof.
  unfold lower. rewrite map_map. apply map_ext. intros c. apply lower_char_idem.
Qed.

(** Title case reads the letters, not their case. *)
Lemma title_from_lower (w : bool) (s : str) :
  title_from w (lower s) = title_from w s.
Proof.
  revert w; induction s as [|c s IH]; intros w; [reflexivity|].
  cbn [lower map title_from]. fold (lower s).
  rewrite IH, is_cased_lower_char, lower_char_idem, upper_lower_char.
  reflexivity.
Qed.

Lemma title_lower (s : str) : Str.title (lower s) = Str.title s.
Proof. apply title_from_lower. Qed.

(** A loop that overwrites its variable at every match ends with the last
    match. *)
Lemma fold_left_last_match {A B} (p : A -> bool) (g : A -> B) (l : list A)
    (init : option B) :
  fold_left (fun acc x => if p x then Some (g x) else acc) l init
  = match last_of (filter p l) with
    | Some x => Some (g x)
    | None => init
    end.
Proof.
  revert init; induction l as [|x l IH]; intros init; [reflexivity|].
  cbn [fold_left filter]. rewrite IH.
  destruct (p x); cbn [last_of]; destruct (last_of (filter p l)); reflexivity.
Qed.

Lemma last_of_in {A} (l : list A) (x : A) : last_of l = Some x -> In x l.
Proof.
  induction l as [|y l IH]; [discriminate|].
  cbn [last_of]. destruct (last_of l) as [z|].
  - intros H; injection H as ->. right. now apply IH.
  - intros H; injection H as ->. now left.
Qed.



Lemma title_genres_plain (g : str) : In g title_genres -> plain (Some g) = true.
Proof.
  assert (H : forallb (fun g => plain (Some g)) title_genres = true)
    by reflexivity.
  rewrite forallb_forall in H. apply H.
Qed.

Lemma is_genre_title (token : str) :
  is_genre token = true -> In (Str.title token) title_genres.
Proof.
  unfold is_genre. intros H.
  apply existsb_exists in H as (g & Hg & E). apply str_eqb_eq in E.
  rewrite <- title_lower, E. now apply in_map.
Qed.

(** X2.  The genre filter is the last token whose lowercase form is one of
    the twelve genres, in title case.  It is therefore one of the twelve
    title-cased genre names, and holds no special character of the regular
    expressions. *)
Theorem extract_filters_listed_in (nlp : str -> doc) (q : str) :
  f_listed_in (extract_filters nlp q)
  = option_map Str.title (last_of (filter is_genre (tokens (nlp (lower q)))))
  /\ forall g, f_listed_in (extract_filters nlp q) = Some g ->
               In g title_genres /\ plain (Some g) = true.
Proof.
  assert (E : f_listed_in (extract_filters nlp q)
              = option_map Str.title
                  (last_of (filter is_genre (tokens (nlp (lower q)))))).
  { unfold extract_filters, extract_filters_doc. cbn [f_listed_in].
    rewrite (fold_left_last_match is_genre Str.title).
    now destruct (last_of _). }
  split; [exact E|]. rewrite E. intros g Hg.
  destruct (last_of (filter is_genre (tokens (nlp (lower q))))) as [t|] eqn:L;
    [|discriminate].
  injection Hg as <-.
  apply last_of_in, filter_In in L as [_ G].
  apply is_genre_title in G. split; [exact G | now apply title_genres_plain].
Qed.

Example extract_filters_last_genre :
  f_listed_in (extract_filters nlp_words (py "a COMEDY or a Horror film"))
  = Some (py "Horror").
Proof. reflexivity. Qed.

(* ================================================================== *)
(** * [filter_data]: failure, and the rows kept *)
(* ================================================================== *)

Section Kept.

Variable re_engine : str -> option (str -> bool).

Lemma when_set_pattern (o : option str) (col : entry -> str)
    (temp : list entry) :
  when_set o (str_contains re_engine col) temp
  = match rejected re_engine o with
    | Some v => Err (ReError v)
    | None => Ok (filter (fun e => on_pattern re_engine o (col e)) temp)
    end.
Proof.
  unfold when_set, rejected, on_pattern, on_field, str_contains, matcher.
  destruct o as [v|]; [destruct (truthy v)|]; rewrite ?filter_true;
    try reflexivity.
  destruct (Regex.compile v); [reflexivity|].
  destruct (re_engine v); reflexivity.
Qed.

(** [filter_data] in one step: the first pattern that is rejected, or the
    rows that pass the four tests. *)
Lemma filter_data_outcome (df : list entry) (f : filters) :
  filter_data re_engine df f
  = match first_rejected re_engine f with
    | Some v => Err (ReError v)
    | None => Ok (filter (keeps re_engine f) df)
    end.
Proof.
  unfold filter_data, first_rejected. cbn [bind_res].
  rewrite when_set_type. cbn [bind_res].
  rewrite when_set_pattern.
  destruct (rejected re_engine (f_country f)); cbn [bind_res]; [reflexivity|].
  rewrite when_set_pattern.
  destruct (rejected re_engine (f_listed_in f)); cbn [bind_res]; [reflexivity|].
  rewrite when_set_year. cbn [bind_res].
  rewrite !filter_filter_and. f_equal. apply filter_ext. intros e.
  unfold keeps. now rewrite !andb_assoc.
Qed.



(** X4.  A row is kept or dropped on its own: the result on two catalogs
    put end to end is the two results put end to end. *)
Theorem filter_data_app (df1 df2 : list entry) (f : filters)
    (rows1 rows2 : list entry) :
  filter_data re_engine df1 f = Ok rows1 ->
  filter_data re_engine df2 f = Ok rows2 ->
  filter_data re_engine (df1 ++ df2) f = Ok (rows1 ++ rows2).
Proof.
  rewrite !filter_data_outcome.
  destruct (first_rejected re_engine f); [discriminate|].
  intros H1 H2. injection H1 as <-. injection H2 as <-.
  now rewrite filter_app.
Qed.

Lemma filter_idem {A} (p : A -> bool) (l : list A) :
  filter p (filter p l) = filter p l.
Proof.
  rewrite filter_filter_and. apply filter_ext. intros x. now destruct (p x).
Qed.

(** X5.  Filtering a result again with the same filters changes nothing. *)
Theorem filter_data_idempotent (df : list entry) (f : filters)
    (rows : list entry) :
  filter_data re_engine df f = Ok rows ->
  filter_data re_engine rows f = Ok rows.
Proof.
  rewrite !filter_data_outcome.
  destruct (first_rejected re_engine f); [discriminate|].
  intros H; injection H as <-. now rewrite filter_idem.
Qed.

Lemma subseq_filter_impl {A} (p p' : A -> bool) (l : list A) :
  (forall x, p x = true -> p' x = true) ->
  subseq (filter p l) (filter p' l).
Proof.
  intros Himp. induction l as [|x l IH]; cbn [filter]; [apply subseq_nil|].
  destruct (p x) eqn:P.
  - rewrite (Himp x P). now apply subseq_keep.
  - destruct (p' x); [now apply subseq_skip | exact IH].
Qed.

Lemma relaxes_on_field (o' o : option str) (p : str -> bool) :
  relaxes o' o -> on_field o p = true -> on_field o' p = true.
Proof.
  intros [H | ->]; [|auto]. intros _.
  unfold on_field. destruct o' as [v|]; [|reflexivity].
  cbn [active] in H. now rewrite H.
Qed.

Lemma relaxes_rejected (o' o : option str) :
  relaxes o' o -> rejected re_engine o = None -> rejected re_engine o' = None.
Proof.
  intros [H | ->]; [|auto]. intros _.
  unfold rejected. destruct o' as [v|]; [|reflexivity].
  cbn [active] in H. now rewrite H.
Qed.

(** X6.  Dropping constraints can only add rows: when every field of [f']
    is either not active or the field of [f], [filter_data] succeeds on [f']
    whenever it does on [f], and the result for [f] is a subsequence of the
    result for [f']. *)
Theorem filter_data_narrows (df : list entry) (f f' : filters)
    (rows : list entry) :
  relaxes_filters f' f ->
  filter_data re_engine df f = Ok rows ->
  exists rows', filter_data re_engine df f' = Ok rows' /\ subseq rows rows'.
Proof.
  intros (Ht & Hc & Hg & Hy). rewrite !filter_data_outcome.
  unfold first_rejected.
  destruct (rejected re_engine (f_country f)) eqn:Rc; [discriminate|].
  destruct (rejected re_engine (f_listed_in f)) eqn:Rg; [discriminate|].
  rewrite (relaxes_rejected Hc Rc), (relaxes_rejected Hg Rg).
  intros H; injection H as <-.
  eexists. split; [reflexivity|].
  apply subseq_filter_impl. intros e. unfold keeps.
  rewrite !andb_true_iff. intros [[[H1 H2] H3] H4].
  repeat split.
  - exact (relaxes_on_field _ Ht H1).
  - exact (relaxes_on_field _ Hc H2).
  - exact (relaxes_on_field _ Hg H3).
  - exact (relaxes_on_field _ Hy H4).
Qed.

End Kept.


Lemma filter_data_app_witness :
  filter_data re_reject ([entry_A] ++ [entry_B])
    {| f_type := Some (py "movie"); f_country := None; f_listed_in := None;
       f_release_year := None |}
  = Ok ([entry_A] ++ []).
Proof.
  exact (filter_data_app re_reject [entry_A] [entry_B]
           {| f_type := Some (py "movie"); f_country := None;
              f_listed_in := None; f_release_year := None |}
           eq_refl eq_refl).
Defined.

Lemma filter_data_idempotent_witness :
  filter_data re_reject [entry_A]
    {| f_type := Some (py "movie"); f_country := None; f_listed_in := None;
       f_release_year := None |}
  = Ok [entry_A].
Proof.
  exact (filter_data_idempotent re_reject catalog_AB
           {| f_type := Some (py "movie"); f_country := None;
              f_listed_in := None; f_release_year := None |} eq_refl).
Defined.

Lemma filter_data_narrows_witness :
  exists rows',
    filter_data re_reject catalog_6
      {| f_type := Some (py "movie"); f_country := None; f_listed_in := None;
         f_release_year := Some [] |}
    = Ok rows'
    /\ subseq [row "T3" "aaaaaa" 2003] rows'.
Proof.
  apply (@filter_data_narrows re_reject catalog_6
           {| f_type := Some (py "movie"); f_country := None;
              f_listed_in := None; f_release_year := Some (py "2003") |}
           {| f_type := Some (py "movie"); f_country := None;
              f_listed_in := None; f_release_year := Some [] |}
           [row "T3" "aaaaaa" 2003]).
  - repeat split; [now right | now right | now right | now left].
  - reflexivity.
Defined.

(* ================================================================== *)
(** * [extract_filters] then [filter_data] *)
(* ================================================================== *)




(* ================================================================== *)
(** * [filter_data]: the year as text *)
(* ================================================================== *)

Lemma py_inj (a b : string) : py a = py b -> a = b.
Proof.
  unfold py. intros H.
  rewrite <- (string_of_list_ascii_of_string a),
          <- (string_of_list_ascii_of_string b).
  now rewrite H.
Qed.

Lemma to_int_not_nil (n : Z) :
  Z.to_int n <> Decimal.Pos Decimal.Nil /\ Z.to_int n <> Decimal.Neg Decimal.Nil.
Proof.
  destruct n as [|p|p]; simpl; split; try discriminate;
    intros H; injection H as H; now apply DecimalPos.Unsigned.to_uint_nonnil in H.
Qed.

(** [str] tells integers apart. *)
Lemma of_Z_inj (n m : Z) : of_Z n = of_Z m -> n = m.
Proof.
  unfold of_Z. intros H. apply py_inj in H.
  apply DecimalZ.to_int_inj.
  destruct (to_int_not_nil n) as [Hn1 Hn2].
  destruct (to_int_not_nil m) as [Hm1 Hm2].
  pose proof (NilZero.isi _ Hn1 Hn2) as En.
  pose proof (NilZero.isi _ Hm1 Hm2) as Em.
  rewrite H in En. congruence.
Qed.

Lemma of_Z_truthy (n : Z) : truthy (of_Z n) = true.
Proof.
  unfold of_Z, NilZero.string_of_int, NilZero.string_of_uint.
  destruct (Z.to_int n) as [d|d]; destruct d; reflexivity.
Qed.

Lemma of_Z_eqb (n m : Z) : Str.eqb (of_Z n) (of_Z m) = Z.eqb n m.
Proof.
  apply eq_true_iff_eq. rewrite str_eqb_eq, Z.eqb_eq. split.
  - apply of_Z_inj.
  - now intros ->.
Qed.

(** X8.  Filtering by the release year written as the decimal text of an
    integer [m] keeps exactly the rows whose year is the integer [m], or the
    text of [m]: two different integer years never pass the same filter. *)
Theorem filter_data_release_year (re_engine : str -> option (str -> bool))
    (df : list entry) (m : Z) :
  filter_data re_engine df
    {| f_type := None; f_country := None; f_listed_in := None;
       f_release_year := Some (of_Z m) |}
  = Ok (filter (year_is m) df).
Proof.
  rewrite filter_data_outcome. cbn [first_rejected rejected f_country f_listed_in].
  f_equal. apply filter_ext. intros e.
  unfold keeps, on_pattern, on_field, year_is. cbn [f_type f_country f_listed_in f_release_year].
  rewrite of_Z_truthy. cbn [andb].
  destruct (release_year e) as [n|s]; cbn [cell_str]; [apply of_Z_eqb | reflexivity].
Qed.

Example filter_data_2015 :
  filter_data re_reject catalog_AB
    {| f_type := None; f_country := None; f_listed_in := None;
       f_release_year := Some (py "2015") |}
  = Ok [entry_B].
Proof. reflexivity. Qed.

(* ================================================================== *)
(** * [filter_data]: the letter case of the filter values *)
(* ================================================================== *)

Lemma search_ext (a b : list Regex.atom) :
  (forall s, Regex.match_here a s = Regex.match_here b s) ->
  forall s, Regex.search a s = Regex.search b s.
Proof.
  intros H s. induction s as [|x s IH]; cbn [Regex.search]; rewrite H.
  - reflexivity.
  - now rewrite IH.
Qed.

(** A pattern and its lowercase form compile alike. *)
Lemma compile_lower (v : str) :
  match Regex.compile v, Regex.compile (lower v) with
  | Some a, Some b => forall s, Regex.match_here a s = Regex.match_here b s
  | None, None => True
  | _, _ => False
  end.
Proof.
  induction v as [|c v IH]; [now intros s|].
  cbn [lower map Regex.compile]. fold (lower v).
  rewrite is_dot_lower_char, is_special_lower_char.
  destruct (Regex.compile v) as [a|], (Regex.compile (lower v)) as [b|];
    try contradiction;
    destruct (Ascii.eqb c "."); cbn [option_map]; try exact I;
    try (destruct (Regex.is_special c); cbn [option_map]; exact I).
  - intros [|x s]; cbn [Regex.match_here]; [reflexivity | now rewrite IH].
  - destruct (Regex.is_special c); cbn [option_map]; [exact I|].
    intros [|x s]; cbn [Regex.match_here Regex.atom_matches];
      [reflexivity | now rewrite IH, lower_char_idem].
Qed.

Lemma same_letters_truthy (v v' : str) : lower v = lower v' -> truthy v = truthy v'.
Proof. destruct v, v'; try discriminate; reflexivity. Qed.

Lemma same_letters_cases (o o' : option str) :
  same_letters o o' ->
  (o = None /\ o' = None) \/ exists v v', o = Some v /\ o' = Some v' /\ lower v = lower v'.
Proof.
  unfold same_letters. destruct o as [v|], o' as [v'|]; cbn [option_map];
    intros H; try discriminate; [right | left; auto].
  injection H as H. now exists v, v'.
Qed.

Lemma when_set_type_letters (o o' : option str) (temp : list entry) :
  same_letters o o' -> when_set o type_equals temp = when_set o' type_equals temp.
Proof.
  intros H. apply same_letters_cases in H as [[-> ->] | (v & v' & -> & -> & E)];
    [reflexivity|].
  unfold when_set, type_equals.
  rewrite (same_letters_truthy _ _ E), E. reflexivity.
Qed.

Lemma when_set_pattern_letters (re_engine : str -> option (str -> bool))
    (o o' : option str) (col : entry -> str) (temp : list entry) :
  same_letters o o' -> in_fragment o = true ->
  when_set o (str_contains re_engine col) temp
  = when_set o' (str_contains re_engine col) temp.
Proof.
  intros H. apply same_letters_cases in H as [[-> ->] | (v & v' & -> & -> & E)];
    [reflexivity|].
  unfold in_fragment, on_field, when_set, str_contains.
  rewrite <- (same_letters_truthy _ _ E).
  destruct (truthy v); [|reflexivity].
  pose proof (compile_lower v) as Hv. pose proof (compile_lower v') as Hv'.
  rewrite <- E in Hv'.
  destruct (Regex.compile v) as [a|]; [|discriminate]. intros _.
  destruct (Regex.compile (lower v)) as [b|]; [|contradiction].
  destruct (Regex.compile v') as [a'|]; [|contradiction].
  f_equal. apply filter_ext. intros e. apply search_ext.
  intros s. now rewrite Hv, Hv'.
Qed.

(** X9.  The letter case of the type, country and genre values does not
    matter: two sets of filters that differ only there, with country and
    genre patterns in the interpreted fragment, give the same result.  So
    the title case that [extract_filters] gives the country and the genre
    has no effect on the rows found. *)
Theorem filter_data_ignores_case (re_engine : str -> option (str -> bool))
    (df : list entry) (f f' : filters) :
  same_letters (f_type f) (f_type f') ->
  same_letters (f_country f) (f_country f') ->
  same_letters (f_listed_in f) (f_listed_in f') ->
  f_release_year f = f_release_year f' ->
  in_fragment (f_country f) = true -> in_fragment (f_listed_in f) = true ->
  filter_data re_engine df f = filter_data re_engine df f'.
Proof.
  intros Ht Hc Hg Hy Fc Fg. unfold filter_data. cbn [bind_res].
  rewrite (when_set_type_letters _ Ht), <- Hy.
  destruct (when_set (f_type f') type_equals df) as [t1|]; cbn [bind_res];
    [|reflexivity].
  rewrite (when_set_pattern_letters re_engine country t1 Hc Fc).
  destruct (when_set (f_country f') _ t1) as [t2|]; cbn [bind_res];
    [|reflexivity].
  rewrite (when_set_pattern_letters re_engine listed_in t2 Hg Fg).
  reflexivity.
Qed.

Lemma filter_data_ignores_case_witness :
  filter_data re_reject catalog_AB
    {| f_type := Some (py "tv show"); f_country := Some (py "uk");
       f_listed_in := Some (py "drama"); f_release_year := None |}
  = filter_data re_reject catalog_AB
      {| f_type := Some (py "TV Show"); f_country := Some (py "Uk");
         f_listed_in := Some (py "Drama"); f_release_year := None |}.
Proof.
  exact (@filter_data_ignores_case re_reject catalog_AB
           {| f_type := Some (py "tv show"); f_country := Some (py "uk");
              f_listed_in := Some (py "drama"); f_release_year := None |}
           {| f_type := Some (py "TV Show"); f_country := Some (py "Uk");
              f_listed_in := Some (py "Drama"); f_release_year := None |}
           eq_refl eq_refl eq_refl eq_refl eq_refl eq_refl).
Defined.

(* ================================================================== *)
(** * [build_prompt]: the first three results, and nothing else *)
(* ================================================================== *)

Lemma build_prompt_firstn (query : str) (results : list entry) :
  build_prompt query results = build_prompt query (firstn 3 results).
Proof.
  destruct results as [|e results]; [reflexivity|].
  rewrite (@build_prompt_nonempty query (e :: results)) by discriminate.
  rewrite (@build_prompt_nonempty query (firstn 3 (e :: results)))
    by discriminate.
  now rewrite firstn_firstn.
Qed.

Ltac not_a_bullet :=
  repeat match goal with
         | |- context [if is_bullet ?x then _ else _] =>
             change (is_bullet x) with false; cbv iota
         end.

(** The bullet lines of a prompt with results are the lines of the first
    three results. *)
Lemma bullet_lines_build_prompt (query : str) (results : list entry) :
  results <> [] -> one_line query = true ->
  forallb entry_one_line (firstn 3 results) = true ->
  filter is_bullet (lines (build_prompt query results))
  = map bullet_line (firstn 3 results).
Proof.
  intros Hne Hq Hl. rewrite (lines_build_prompt query Hne Hq Hl).
  cbn [app filter]. not_a_bullet.
  rewrite filter_app. cbn [filter]. not_a_bullet.
  rewrite app_nil_r. apply filter_all. apply forallb_forall. intros x Hx.
  apply in_map_iff in Hx as [e [<- _]]. reflexivity.
Qed.

(** X10.  The prompt reads the first three results only: two result sets
    that agree on their first three rows give the same prompt.  When the
    query and those rows hold no newline, the prompt of a non-empty result
    set has one bullet line per row read, min(3, number of results) in
    all. *)
Theorem build_prompt_reads_three (query : str) (results : list entry) :
  (forall results', firstn 3 results' = firstn 3 results ->
                    build_prompt query results' = build_prompt query results)
  /\ (results <> [] -> one_line query = true ->
      forallb entry_one_line (firstn 3 results) = true ->
      List.length (filter is_bullet (lines (build_prompt query results)))
      = Nat.min 3 (List.length results)).
Proof.
  split.
  - intros results' H.
    now rewrite (build_prompt_firstn query results'), H, <- build_prompt_firstn.
  - intros Hne Hq Hl.
    rewrite (bullet_lines_build_prompt query Hne Hq Hl).
    now rewrite length_map, length_firstn.
Qed.

Lemma build_prompt_reads_three_witness :
  List.length (filter is_bullet (lines (build_prompt (py "any film") catalog_AB)))
  = Nat.min 3 (List.length catalog_AB).
Proof.
  apply (proj2 (build_prompt_reads_three (py "any film") catalog_AB));
    [discriminate | reflexivity | reflexivity].
Defined.

Lemma contains_app_l (p a b : str) : contains p a = true -> contains p (a ++ b) = true.
Proof.
  rewrite !contains_spec. intros (x & y & ->).
  exists x, (y ++ b). now rewrite <- !app_assoc.
Qed.

Lemma contains_app_r (p a b : str) : contains p b = true -> contains p (a ++ b) = true.
Proof.
  rewrite !contains_spec. intros (x & y & ->).
  exists (a ++ x), y. now rewrite <- !app_assoc.
Qed.

Lemma contains_bullets (p : str) (e : entry) (l : list entry) :
  In e l -> contains p (bullet e) = true ->
  contains p (List.concat (map bullet l)) = true.
Proof.
  intros Hin Hp. apply in_split in Hin as (l1 & l2 & ->).
  rewrite map_app, concat_app. cbn [map List.concat].
  now apply contains_app_r, contains_app_l.
Qed.

(** X11.  Whatever the results, the prompt quotes the query as it was
    typed; and it holds the title, the year and the description of each of
    the first three results. *)
Theorem build_prompt_contents (query : str) (results : list entry) :
  contains query (build_prompt query results) = true
  /\ forall e, In e (firstn 3 results) ->
       contains (title e) (build_prompt query results) = true
       /\ contains (cell_str (release_year e)) (build_prompt query results) = true
       /\ contains (description e) (build_prompt query results) = true.
Proof.
  split.
  - destruct results as [|e0 results].
    + apply contains_spec. exists (py "User asked: '"). eexists. reflexivity.
    + rewrite (@build_prompt_nonempty query (e0 :: results)) by discriminate.
      apply contains_app_l. apply contains_spec.
      exists (py "You are a helpful Netflix assistant. User asked: " ++ [dquote]).
      eexists. unfold prompt_header. rewrite <- !app_assoc. reflexivity.
  - intros e Hin.
    assert (Hne : results <> []) by (destruct results; [destruct Hin | discriminate]).
    rewrite (build_prompt_nonempty query Hne).
    repeat split; apply contains_app_r, contains_app_l,
      (contains_bullets _ e _ Hin); apply contains_spec; unfold bullet.
    + exists (py "- **"). eexists. reflexivity.
    + exists (py "- **" ++ title e ++ py "** ("). eexists.
      rewrite <- !app_assoc. reflexivity.
    + exists (py "- **" ++ title e ++ py "** (" ++ cell_str (release_year e)
                ++ py "): ").
      eexists. rewrite <- !app_assoc. reflexivity.
Qed.

(* ================================================================== *)
(** * [strip]: the reply of a completed call, and the column names *)
(* ================================================================== *)

Lemma lstrip_split (s : str) :
  exists a, s = a ++ lstrip s /\ forallb is_space a = true.
Proof.
  induction s as [|c s (a & E & Ha)]; [now exists []|].
  cbn [lstrip]. destruct (is_space c) eqn:Hc.
  - exists (c :: a). cbn [forallb app]. now rewrite Hc, Ha, <- E.
  - now exists [].
Qed.

Lemma lstrip_head (s : str) (c : ascii) (r : str) :
  lstrip s = c :: r -> is_space c = false.
Proof.
  induction s as [|x s IH]; [discriminate|].
  cbn [lstrip]. destruct (is_space x) eqn:Hx; [exact IH|].
  intros H; injection H as <- _. exact Hx.
Qed.

Lemma lstrip_app_space (a t : str) :
  forallb is_space a = true -> lstrip (a ++ t) = lstrip t.
Proof.
  induction a as [|c a IH]; [reflexivity|].
  cbn [forallb app lstrip]. intros H. apply andb_true_iff in H as [-> Ha]. auto.
Qed.

Lemma lstrip_all_space (a : str) : forallb is_space a = true -> lstrip a = [].
Proof.
  intros H. rewrite <- (app_nil_r a). now rewrite lstrip_app_space.
Qed.

Lemma lstrip_app (h b : str) :
  lstrip (h ++ b) = match lstrip h with
                    | [] => lstrip b
                    | _ :: _ => lstrip h ++ b
                    end.
Proof.
  induction h as [|c h IH]; [reflexivity|].
  cbn [app lstrip]. destruct (is_space c); [exact IH | reflexivity].
Qed.

Lemma forallb_rev {A} (p : A -> bool) (l : list A) :
  forallb p (rev l) = forallb p l.
Proof.
  apply eq_true_iff_eq. rewrite !forallb_forall.
  split; intros H x Hx; apply H.
  - apply -> in_rev. exact Hx.
  - apply <- in_rev. exact Hx.
Qed.

Lemma rev_head_last (s : str) (c : ascii) (x : ascii) (y : str) :
  rev s = x :: y -> last s c = x.
Proof.
  intros H. apply (f_equal (@rev ascii)) in H. rewrite rev_involutive in H.
  subst s. cbn [rev]. apply last_last.
Qed.

(** [strip] takes white space off both ends, and nothing else. *)
Lemma strip_spec (s : str) :
  exists a b, s = a ++ strip s ++ b
              /\ forallb is_space a = true /\ forallb is_space b = true
              /\ trimmed (strip s).
Proof.
  unfold strip.
  destruct (lstrip_split s) as (a & Es & Ha).
  destruct (lstrip_split (rev (lstrip s))) as (w & Er & Hw).
  set (u := lstrip (rev (lstrip s))) in *.
  assert (Et : lstrip s = rev u ++ rev w).
  { rewrite <- (rev_involutive (lstrip s)), Er. apply rev_app_distr. }
  exists a, (rev w). repeat split.
  - now rewrite <- Et.
  - exact Ha.
  - now rewrite forallb_rev.
  - unfold trimmed. destruct (rev u) as [|c r] eqn:Eu; [exact I|]. split.
    + cbn [app] in Et. exact (lstrip_head _ Et).
    + destruct u as [|x u'] eqn:Hu; [discriminate|].
      rewrite <- Eu. cbn [rev]. rewrite last_last.
      exact (lstrip_head _ Hu).
Qed.

Lemma strip_trimmed (s : str) : trimmed s -> strip s = s.
Proof.
  unfold strip, trimmed. destruct s as [|c r]; [reflexivity|].
  intros [Hc Hl].
  assert (E1 : lstrip (c :: r) = c :: r) by (cbn [lstrip]; now rewrite Hc).
  rewrite E1.
  destruct (rev (c :: r)) as [|x y] eqn:Er.
  - apply (f_equal (@List.length ascii)) in Er.
    rewrite length_rev in Er. discriminate.
  - rewrite (rev_head_last _ c Er) in Hl.
    cbn [lstrip]. rewrite Hl, <- Er. apply rev_involutive.
Qed.

Lemma strip_idem (s : str) : strip (strip s) = strip s.
Proof.
  destruct (strip_spec s) as (_ & _ & _ & _ & _ & H). now apply strip_trimmed.
Qed.

Lemma lstrip_lower (s : str) : lstrip (lower s) = lower (lstrip s).
Proof.
  induction s as [|c s IH]; [reflexivity|].
  cbn [lower map lstrip]. fold (lower s).
  rewrite is_space_lower_char. destruct (is_space c); [exact IH | reflexivity].
Qed.

Lemma strip_lower (s : str) : strip (lower s) = lower (strip s).
Proof.
  unfold strip. rewrite lstrip_lower.
  unfold lower at 1. rewrite <- map_rev. fold (lower (rev (lstrip s))).
  rewrite lstrip_lower. unfold lower. now rewrite map_rev.
Qed.

(** White space around a string does not change what [strip] returns. *)
Lemma strip_app_space (a h b : str) :
  forallb is_space a = true -> forallb is_space b = true ->
  strip (a ++ h ++ b) = strip h.
Proof.
  intros Ha Hb. unfold strip. rewrite (lstrip_app_space a _ Ha), lstrip_app.
  destruct (lstrip h) as [|c t] eqn:E.
  - now rewrite (lstrip_all_space b Hb).
  - rewrite rev_app_distr, lstrip_app_space; [reflexivity|].
    now rewrite forallb_rev.
Qed.

(** X12.  When the generator process completes with a standard output of
    ASCII characters, [query_mistral] has made one call, with the prompt as
    the last argument of the command line, and its reply is the standard
    output without the white space at its two ends: the output is white
    space, then the reply, then white space, and the reply neither starts
    nor ends with white space. *)
Theorem query_mistral_completed (run : list str -> run_result) (prompt : str)
    (returncode : Z) (stdout stderr : str) :
  run (ollama_argv prompt) = Completed returncode stdout stderr ->
  ascii_only stdout = true ->
  exists reply a b,
    query_mistral run prompt = ([EvRun (ollama_argv prompt)], Ok reply)
    /\ stdout = a ++ reply ++ b
    /\ forallb is_space a = true /\ forallb is_space b = true
    /\ trimmed reply.
Proof.
  intros H _. destruct (strip_spec stdout) as (a & b & E & Ha & Hb & Ht).
  exists (strip stdout), a, b. repeat split; auto.
  unfold query_mistral, bind, emit, ret. cbn [app]. now rewrite H.
Qed.

Lemma query_mistral_completed_witness :
  exists reply a b,
    query_mistral run_echo (py " hi ")
    = ([EvRun (ollama_argv (py " hi "))], Ok reply)
    /\ py " hi " = a ++ reply ++ b
    /\ forallb is_space a = true /\ forallb is_space b = true
    /\ trimmed reply.
Proof.
  exact (@query_mistral_completed run_echo (py " hi ") 0 (py " hi ") []
           eq_refl eq_refl).
Defined.

Lemma no_upper_lower (s : str) :
  forallb (fun x => negb (is_upper x)) (lower s) = true.
Proof.
  apply forallb_forall. intros x Hx.
  apply in_map_iff in Hx as (c & <- & _). now rewrite is_upper_lower_char.
Qed.

(** X13.  The column names after the load are in lowercase with no white
    space at either end; normalising them again changes nothing; and a
    header written with other letter case or with white space around it
    gets the same name. *)
Theorem normalize_columns_spec (columns : list str) :
  normalize_columns (normalize_columns columns) = normalize_columns columns
  /\ Forall (fun col => trimmed col
                        /\ forallb (fun x => negb (is_upper x)) col = true)
       (normalize_columns columns)
  /\ (forall a h h' b,
        forallb is_space a = true -> forallb is_space b = true ->
        lower h = lower h' ->
        normalize_columns [a ++ h ++ b] = normalize_columns [h']).
Proof.
  split; [|split].
  - unfold normalize_columns. rewrite map_map. apply map_ext. intros col.
    now rewrite (strip_lower col), lower_idem, strip_lower, strip_idem.
  - apply Forall_forall. intros col Hin.
    apply in_map_iff in Hin as (c & <- & _).
    destruct (strip_spec (lower c)) as (a & b & E & _ & _ & Ht).
    split; [exact Ht|].
    pose proof (no_upper_lower c) as H. rewrite E, !forallb_app in H.
    apply andb_true_iff in H as [_ H]. now apply andb_true_iff in H as [H _].
  - intros a h h' b Ha Hb E. unfold normalize_columns. cbn [map]. f_equal.
    rewrite <- E, !strip_lower. f_equal. now apply strip_app_space.
Qed.

Example normalize_columns_netflix :
  normalize_columns [py "Title"; py " Release_Year "; py "listed_in"]
  = [py "title"; py "release_year"; py "listed_in"].
Proof. reflexivity. Qed.

(* ================================================================== *)
(** * [chat] from end to end *)
(* ================================================================== *)

Section ChatOutcome.

Variable nlp : str -> doc.
Variable re_engine : str -> option (str -> bool).
Variable vec : Type.
Variable encode : list str -> list vec.
Variable cosine_similarity : list vec -> list vec -> list (list Q).
Variable argsort : list Q -> list nat.
Variable subprocess_run : list str -> run_result.
Variable df : list entry.

Hypothesis encode_each : encodes_each encode.
Hypothesis cosine_each : scores_each cosine_similarity.
Hypothesis argsort_sorts : sorts argsort.

Local Notation fallback := (semantic_fallback encode cosine_similarity argsort df).
Local Notation retrieve' :=
  (retrieve nlp re_engine encode cosine_similarity argsort df).
Local Notation chat' :=
  (chat nlp re_engine encode cosine_similarity argsort subprocess_run df).





End ChatOutcome.


(* ================================================================== *)
(** * The fallback and the prompt together *)
(* ================================================================== *)

Lemma iloc_firstn (frame : list entry) (k : nat) (idx : list nat)
    (rows : list entry) :
  iloc frame idx = Ok rows -> iloc frame (firstn k idx) = Ok (firstn k rows).
Proof.
  revert k rows; induction idx as [|i idx IH]; intros k rows.
  - intros H; injection H as <-. now destruct k.
  - cbn [iloc]. destruct (nth_error frame i) as [r|] eqn:E; [|discriminate].
    destruct (iloc frame idx) as [rs|] eqn:Ei; cbn [bind_res]; [|discriminate].
    intros H; injection H as <-.
    destruct k as [|k]; [reflexivity|].
    cbn [firstn iloc]. rewrite E, (IH k rs eq_refl). reflexivity.
Qed.

Lemma firstn_3_of_top_5 {A} (l : list A) :
  firstn 3 (rev (last_n 5 l)) = rev (last_n 3 l).
Proof.
  unfold last_n. rewrite firstn_rev, skipn_skipn, length_skipn.
  do 2 f_equal. lia.
Qed.

(** X15.  Of the five rows the fallback selects, the prompt reads three:
    the prompt built from the fallback's result is the prompt built from the
    rows at [np.argsort(sims)[-3:][::-1]], the three highest scores. *)
Theorem fallback_prompt_top_three (argsort : list Q -> list nat)
    (df : list entry) (query : str) (sims : list Q) (rows : list entry) :
  iloc df (top_indices argsort sims) = Ok rows ->
  iloc df (rev (last_n 3 (argsort sims))) = Ok (firstn 3 rows)
  /\ build_prompt query rows = build_prompt query (firstn 3 rows).
Proof.
  intros H. split.
  - rewrite <- firstn_3_of_top_5. now apply iloc_firstn.
  - apply build_prompt_firstn.
Qed.

Lemma fallback_prompt_top_three_witness :
  iloc catalog_6
    (rev (last_n 3 (argsort_insertion (encode_length (texts catalog_6)))))
  = Ok (firstn 3 [row "T3" "aaaaaa" 2003; row "T5" "aaaaa" 2005;
                  row "T1" "aaaa" 2001; row "T6" "aaa" 2006;
                  row "T4" "aa" 2004])
  /\ build_prompt (py "any film")
       [row "T3" "aaaaaa" 2003; row "T5" "aaaaa" 2005; row "T1" "aaaa" 2001;
        row "T6" "aaa" 2006; row "T4" "aa" 2004]
     = build_prompt (py "any film")
         (firstn 3 [row "T3" "aaaaaa" 2003; row "T5" "aaaaa" 2005;
                    row "T1" "aaaa" 2001; row "T6" "aaa" 2006;
                    row "T4" "aa" 2004]).
Proof.
  exact (@fallback_prompt_top_three argsort_insertion catalog_6 (py "any film")
           (encode_length (texts catalog_6)) _ eq_refl).
Defined.
